(** * Job tracking app: CSV ingestion and roll progress

    A shallow embedding of [Job tracking app/main.py]:
    - [WatchdogCSVMonitor.process_csv] and [CSVEventHandler] (incremental
      reading of the printer logs and the per-printer cumulative counters);
    - [RollWidget] ([start_roll], [toggle_pause], [stop_roll],
      [update_progress]) and [JobDetailWidget] ([init_ui], [update_rolls]);
    - the filter of [CSVEventHandler], the way of a signal through
      [MainWindow.handle_csv_update], the notes of a roll ([submit_note],
      [discard_note]), the two job forms and [DatabaseManager].

    Python dictionaries are finite maps ([gmap]); the order in which a
    dictionary is iterated plays no part in any result below.  Python
    integers are [Z]; row cursors, which are only ever [0] or a [len], are
    [nat].  The one float of these functions, the quotient of line 346,
    is the correctly rounded double ([Job.math_ceil_true_div]).  A Python
    exception is the [None] of an [option] result. *)

From Stdlib Require Import ZArith Ascii String List Lia.
From stdpp Require Import base option list gmap strings fin_maps pretty.

Set Warnings "-clear-no-such-hyp".

Local Open Scope string_scope.

(* ===================================================================== *)
(** ** Python strings: [str.strip] *)
(* ===================================================================== *)

Module PyStr.

(** [str.isspace] on one character, for code points below 256: the
    characters TAB, LF, VT, FF, CR, the separators FS, GS, RS, US, the
    space, NEL (0x85) and the no-break space (0xA0). *)
Definition isspace (a : ascii) : bool :=
  let n := nat_of_ascii a in
  (Nat.leb 9 n && Nat.leb n 13) || (Nat.leb 28 n && Nat.leb n 32)
  || Nat.eqb n 133 || Nat.eqb n 160.

(** [s.lstrip()] *)
Fixpoint lstrip (s : string) : string :=
  match s with
  | EmptyString => EmptyString
  | String a s' => if isspace a then lstrip s' else s
  end.

(** [s.rstrip()]: a whitespace character is kept exactly when something
    is kept to its right. *)
Fixpoint rstrip (s : string) : string :=
  match s with
  | EmptyString => EmptyString
  | String a s' =>
      match rstrip s' with
      | EmptyString => if isspace a then EmptyString else String a EmptyString
      | String b t => String a (String b t)
      end
  end.

(** [s.strip()] *)
Definition strip (s : string) : string := rstrip (lstrip s).

(** Every character of the string is whitespace (the empty string
    included): the "blank" field of a log record. *)
Fixpoint blank (s : string) : bool :=
  match s with
  | EmptyString => true
  | String a s' => isspace a && blank s'
  end.

End PyStr.

(* ===================================================================== *)
(** ** The CSV monitor *)
(* ===================================================================== *)

Module Monitor.
Import PyStr.

(** A record produced by [csv.DictReader]: a dictionary from column names
    to values.  The value of a column is a string, or Python's [None] when
    the line has fewer fields than the header ([restval]); a column the
    header does not have is absent from the dictionary.
    - [r !! k = None]          : key [k] absent,
    - [r !! k = Some None]     : key present, value [None],
    - [r !! k = Some (Some s)] : key present, value the string [s]. *)
Abbreviation row := (gmap string (option string)).

(** The inner dictionaries [{"pass": _, "fail": _}]: they are only ever
    built with exactly these two keys. *)
Record Counts : Type := mkCounts { pass : Z; fail : Z }.

Definition zero : Counts := mkCounts 0 0.
Definition incr_pass (c : Counts) : Counts := mkCounts (pass c + 1) (fail c).
Definition incr_fail (c : Counts) : Counts := mkCounts (pass c) (fail c + 1).
Definition add_counts (c d : Counts) : Counts :=
  mkCounts (pass c + pass d) (fail c + fail d).

Global Instance Counts_eq_dec : EqDecision Counts.
Proof. solve_decision. Defined.

(** The state of a [WatchdogCSVMonitor]. *)
Record t : Type := mk {
  file_row_counts : gmap string nat;
  cumulative_counts : gmap string Counts
}.

(** [WatchdogCSVMonitor.__init__] *)
Definition init : t := mk ∅ ∅.

(** What [open] and [list(csv.DictReader(csvfile))] give: the records of
    the file, or an exception (file locked, missing, undecodable...). *)
Inductive read_result : Type :=
| ReadError
| ReadOk (rows : list row).

(** [row.get(key, default).strip()]: [None] is the [AttributeError] raised
    by [None.strip()]. *)
Definition get_strip (r : row) (key default : string) : option string :=
  match r !! key with
  | None => Some (strip default)
  | Some (Some s) => Some (strip s)
  | Some None => None
  end.

(** The body of [for row in new_rows] (lines 153-160). *)
Definition row_step (new_counts : gmap string Counts) (r : row)
  : option (gmap string Counts) :=
  failure_msg ← get_strip r "Failure Message" "";
  printer ← get_strip r "Printer Name" "Printer_1";
  let new_counts :=
    match new_counts !! printer with
    | None => <[printer := zero]> new_counts
    | Some _ => new_counts
    end in
  Some (if String.eqb failure_msg "Pass (Label)"
        then alter incr_pass printer new_counts
        else if String.eqb failure_msg "Fail (Label)"
        then alter incr_fail printer new_counts
        else new_counts).

(** The loop [for row in new_rows], stopped by the first exception. *)
Fixpoint scan_rows (new_counts : gmap string Counts) (new_rows : list row)
  : option (gmap string Counts) :=
  match new_rows with
  | [] => Some new_counts
  | r :: rest => nc ← row_step new_counts r; scan_rows nc rest
  end.

(** The loop [for printer, counts in new_counts.items()] (lines 166-170). *)
Definition accumulate (cumulative new_counts : gmap string Counts)
  : gmap string Counts :=
  map_fold (fun printer counts cum =>
              let cum :=
                match cum !! printer with
                | None => <[printer := zero]> cum
                | Some _ => cum
                end in
              alter (fun c => add_counts c counts) printer cum)
           cumulative new_counts.

(** How one call of [process_csv] ends. *)
Inductive outcome : Type :=
| Raised                                      (* the [except] branch *)
| Quiet                                       (* [new_counts] empty: no signal *)
| Emitted (snapshot : gmap string Counts).    (* [update_signal.emit] *)

(** Lines 142-143: [if csv_path not in self.file_row_counts:
    self.file_row_counts[csv_path] = 0]. *)
Definition seen (m : t) (csv_path : string) : gmap string nat :=
  match file_row_counts m !! csv_path with
  | None => <[csv_path := 0%nat]> (file_row_counts m)
  | Some _ => file_row_counts m
  end.

(** [WatchdogCSVMonitor.process_csv] (lines 140-173); [f] is what reading
    [csv_path] gives at the time of the call. *)
Definition process_csv (m : t) (csv_path : string) (f : read_result)
  : t * outcome :=
  let frc := seen m csv_path in
  match f with
  | ReadError => (mk frc (cumulative_counts m), Raised)
  | ReadOk rows =>
      let total_rows := length rows in
      let last_count := default 0%nat (frc !! csv_path) in
      let new_rows := drop last_count rows in
      match scan_rows ∅ new_rows with
      | None => (mk frc (cumulative_counts m), Raised)
      | Some new_counts =>
          let frc := <[csv_path := total_rows]> frc in
          let cum := accumulate (cumulative_counts m) new_counts in
          (mk frc cum,
           if decide (new_counts = ∅) then Quiet else Emitted cum)
      end
  end.

(** [CSVEventHandler.on_modified] and [on_created], for a path that passed
    the [.csv] filter. *)
Definition on_modified (m : t) (src_path : string) (f : read_result) : t * outcome :=
  process_csv m src_path f.

Definition on_created (m : t) (src_path : string) (f : read_result) : t * outcome :=
  process_csv (mk (<[src_path := 0%nat]> (file_row_counts m)) (cumulative_counts m))
              src_path f.

(** The cursor of a file: rows already consumed, [0] for a file not seen. *)
Definition cursor (m : t) (csv_path : string) : nat :=
  default 0%nat (file_row_counts m !! csv_path).

(** The cumulative counters of a printer, [zero] for a printer not seen. *)
Definition counters (m : t) (printer : string) : Counts :=
  default zero (cumulative_counts m !! printer).

(** A sequence of [process_csv] calls on one file. *)
Definition run (m : t) (csv_path : string) (reads : list read_result) : t :=
  foldl (fun m f => fst (process_csv m csv_path f)) m reads.

End Monitor.

(* ===================================================================== *)
(** ** One roll of a job: [RollWidget] *)
(* ===================================================================== *)

Module Roll.

(** The values of [self.state]: "idle", "running", "paused", "stopped",
    "completed". *)
Inductive State : Type := idle | running | paused | stopped | completed.

Global Instance State_eq_dec : EqDecision State.
Proof. solve_decision. Defined.

(** The fields of a [RollWidget] that its methods read or write.  The
    three buttons are kept as their [isEnabled] flag; [actions] is the
    list of [(action, note)] this roll handed to
    [db_manager.log_roll_action], oldest first.  The progress bar, the two
    count labels and the notes panel only display values and are left
    out. *)
Record t : Type := mk {
  job_id : Z;
  roll_number : Z;
  labels_goal : Z;
  printer_name : string;
  current_progress : Z;
  state : State;
  baseline_pass : option Z;
  baseline_fail : option Z;
  start_btn : bool;
  pause_btn : bool;
  stop_btn : bool;
  actions : list (string * string)
}.

(** [RollWidget.__init__] *)
Definition init (job_id roll_number labels_goal : Z) (printer_name : string) : t :=
  mk job_id roll_number labels_goal printer_name 0 idle None None true true true [].

Definition set_state (s : State) (r : t) : t :=
  mk (job_id r) (roll_number r) (labels_goal r) (printer_name r)
     (current_progress r) s (baseline_pass r) (baseline_fail r)
     (start_btn r) (pause_btn r) (stop_btn r) (actions r).

Definition set_baseline (bp bf : option Z) (r : t) : t :=
  mk (job_id r) (roll_number r) (labels_goal r) (printer_name r)
     (current_progress r) (state r) bp bf
     (start_btn r) (pause_btn r) (stop_btn r) (actions r).

Definition set_current_progress (p : Z) (r : t) : t :=
  mk (job_id r) (roll_number r) (labels_goal r) (printer_name r)
     p (state r) (baseline_pass r) (baseline_fail r)
     (start_btn r) (pause_btn r) (stop_btn r) (actions r).

Definition set_buttons (b_start b_pause b_stop : bool) (r : t) : t :=
  mk (job_id r) (roll_number r) (labels_goal r) (printer_name r)
     (current_progress r) (state r) (baseline_pass r) (baseline_fail r)
     b_start b_pause b_stop (actions r).

(** [self.db_manager.log_roll_action(self.job_id, self.roll_number, action, note)] *)
Definition log_roll_action (action note : string) (r : t) : t :=
  mk (job_id r) (roll_number r) (labels_goal r) (printer_name r)
     (current_progress r) (state r) (baseline_pass r) (baseline_fail r)
     (start_btn r) (pause_btn r) (stop_btn r) (actions r ++ [(action, note)]).

(** [RollWidget.start_roll] (lines 248-256) *)
Definition start_roll (r : t) : t :=
  if decide (state r ≠ running) then
    log_roll_action "start" ""
      (set_buttons false (pause_btn r) (stop_btn r)
         (set_baseline None None (set_state running r)))
  else r.

(** [RollWidget.toggle_pause] (lines 258-270) *)
Definition toggle_pause (r : t) : t :=
  if decide (state r = running) then set_state paused r
  else if decide (state r = paused) then
    log_roll_action "resume" "" (set_state running r)
  else r.

(** [RollWidget.stop_roll] (lines 298-306) *)
Definition stop_roll (r : t) : t :=
  if decide (state r = running ∨ state r = paused) then
    set_buttons false false false
      (log_roll_action "stop" "" (set_state stopped r))
  else r.

(** [cumulative_data.get(key, 0)] *)
Definition get0 (cumulative_data : gmap string Z) (key : string) : Z :=
  default 0%Z (cumulative_data !! key).

(** [RollWidget.update_progress] (lines 308-328).  [None] is the
    [TypeError] of [int - None], raised when [baseline_pass] is set and
    [baseline_fail] is not; no roll built by the methods above is in that
    situation (see [baselines_paired]). *)
Definition update_progress (r : t) (cumulative_data : gmap string Z) : option t :=
  if decide (state r ≠ running) then Some r
  else
    match baseline_pass r with
    | None =>
        Some (set_baseline (Some (get0 cumulative_data "pass"))
                           (Some (get0 cumulative_data "fail")) r)
    | Some bp =>
        let delta_pass := (get0 cumulative_data "pass" - bp)%Z in
        bf ← baseline_fail r;
        let delta_fail := (get0 cumulative_data "fail" - bf)%Z in
        let r := set_current_progress (Z.min delta_pass (labels_goal r)) r in
        Some (if decide (labels_goal r ≤ current_progress r)%Z then
                set_buttons false false false
                  (log_roll_action "completed" "Roll complete"
                     (set_state completed r))
              else r)
    end.

(** Successive calls of [update_progress], stopped by an exception. *)
Fixpoint update_all (r : t) (snapshots : list (gmap string Z)) : option t :=
  match snapshots with
  | [] => Some r
  | c :: rest => r' ← update_progress r c; update_all r' rest
  end.

(** The signals of the three buttons: Qt delivers [clicked] only for an
    enabled button.  [confirm_stop] calls [stop_roll] when the user
    answers Yes. *)
Definition click_start (r : t) : t := if start_btn r then start_roll r else r.
Definition click_pause (r : t) : t := if pause_btn r then toggle_pause r else r.
Definition confirm_stop (yes : bool) (r : t) : t :=
  if stop_btn r then (if yes then stop_roll r else r) else r.

(** What can happen to a roll on screen. *)
Inductive event : Type :=
| ClickStart
| ClickPause
| ClickStop (yes : bool)
| Update (cumulative_data : gmap string Z).

Definition step (r : t) (e : event) : option t :=
  match e with
  | ClickStart => Some (click_start r)
  | ClickPause => Some (click_pause r)
  | ClickStop yes => Some (confirm_stop yes r)
  | Update c => update_progress r c
  end.

(** The rolls reachable on screen from a new widget. *)
Inductive reachable : t → Prop :=
| reach_init j n g p : reachable (init j n g p)
| reach_step r e r' : reachable r → step r e = Some r' → reachable r'.

(** What holds of every roll on screen: the Start button is enabled
    exactly in state idle, a stopped or completed roll has its three
    buttons disabled, and the two baselines are set together. *)
Definition on_screen (r : t) : Prop :=
  (start_btn r = true ↔ state r = idle)
  ∧ (state r = stopped ∨ state r = completed →
     start_btn r = false ∧ pause_btn r = false ∧ stop_btn r = false)
  ∧ (baseline_pass r = None ↔ baseline_fail r = None).

End Roll.

(* ===================================================================== *)
(** ** The rolls of a job: [JobDetailWidget] *)
(* ===================================================================== *)

Module Job.

(** The tuple [(id, customer, job_ticket, inlay_type, quantity,
    labels_per_roll, printer_name, created_at)] of the [jobs] table. *)
Record t : Type := mk {
  id : Z;
  customer : string;
  job_ticket : string;
  inlay_type : string;
  quantity : Z;
  labels_per_roll : Z;
  printer_name : string;
  created_at : string
}.

(** The ceiling of the exact quotient [a / b], and [None] for the
    [ZeroDivisionError].  Line 346 takes the ceiling of the quotient in
    double precision, [math_ceil_true_div] below; the two are equal on the
    values the job forms allow (quantity up to 100000, labels per roll up
    to 10000) and differ beyond [2^53]. *)
Definition ceil_div (a b : Z) : option Z :=
  if decide (b = 0)%Z then None else Some (- ((- a) / b))%Z.

(** [n / d] rounded to the nearest integer, a half to the even one
    ([0 ≤ n], [0 < d]). *)
Definition round_half_even (n d : Z) : Z :=
  let q := (n / d)%Z in
  let r := (n mod d)%Z in
  if decide (2 * r < d)%Z then q
  else if decide (d < 2 * r)%Z then (q + 1)%Z
  else if Z.even q then q else (q + 1)%Z.

(** The double nearest to [a / b], for [0 < a] and [0 < b], is
    [mantissa a b * 2 ^ ulp_exponent a b]: Python's [/] on two [int]s is
    correctly rounded, a half to even.  The exponent leaves 53 bits to the
    mantissa, and is never below [-1074], where the doubles end. *)
Definition ulp_exponent (a b : Z) : Z :=
  let d := (Z.log2 a - Z.log2 b)%Z in
  Z.max ((if decide (a * 2 ^ Z.max 0 (- d) < b * 2 ^ Z.max 0 d)%Z
          then d - 1 else d) - 52) (-1074).

Definition mantissa (a b : Z) : Z :=
  let e := ulp_exponent a b in
  round_half_even (a * 2 ^ Z.max 0 (- e)) (b * 2 ^ Z.max 0 e).

(** [math.ceil(a / b)] as line 346 computes it: [None] for the
    [ZeroDivisionError], and for the [OverflowError] of a quotient that
    rounds to [2^1024] or more. *)
Definition math_ceil_true_div (a b : Z) : option Z :=
  if decide (b = 0)%Z then None
  else if decide (a = 0)%Z then Some 0%Z
  else
    let e := ulp_exponent (Z.abs a) (Z.abs b) in
    let m := mantissa (Z.abs a) (Z.abs b) in
    if decide (0 ≤ e ∧ 2 ^ 1024 ≤ m * 2 ^ e)%Z then None
    else if decide (Z.sgn a = Z.sgn b)
    then Some (if decide (0 ≤ e)%Z then m * 2 ^ e else - ((- m) / 2 ^ (- e)))%Z
    else Some (if decide (0 ≤ e)%Z then - (m * 2 ^ e) else - (m / 2 ^ (- e)))%Z.

(** [total_rolls] of [JobDetailWidget.init_ui] (line 346), with the exact
    quotient. *)
Definition total_rolls (job : t) : option Z :=
  ceil_div (quantity job) (labels_per_roll job).

(** [JobDetailWidget.init_ui] (lines 346-352): the list [roll_widgets]. *)
Definition init_ui (job : t) : option (list Roll.t) :=
  total_rolls ← total_rolls job;
  Some ((fun roll_num =>
           Roll.init (id job) roll_num (labels_per_roll job) (printer_name job))
        <$> seqZ 1 total_rolls).

(** The loop of [update_rolls]: the first running roll is updated, then
    [break]. *)
Fixpoint update_first_running (rolls : list Roll.t) (cumulative : gmap string Z)
  : option (list Roll.t) :=
  match rolls with
  | [] => Some []
  | roll :: rest =>
      if decide (Roll.state roll = Roll.running) then
        roll' ← Roll.update_progress roll cumulative; Some (roll' :: rest)
      else
        rest' ← update_first_running rest cumulative; Some (roll :: rest')
  end.

(** [JobDetailWidget.update_rolls] (lines 365-372) *)
Definition update_rolls (job : t) (rolls : list Roll.t)
    (update_data : gmap string (gmap string Z)) : option (list Roll.t) :=
  match update_data !! printer_name job with
  | Some cumulative => update_first_running rolls cumulative
  | None => Some rolls
  end.

End Job.

(* ===================================================================== *)
(** ** The events of a log: what there is to count *)
(* ===================================================================== *)

Module Events.
Import PyStr Monitor.

(** The two outcomes a row can report. *)
Inductive Verdict : Type := Pass | Fail.

Global Instance Verdict_eq_dec : EqDecision Verdict.
Proof. solve_decision. Defined.

(** The classification of lines 157-160, on the stripped field. *)
Definition classify (failure_msg : string) : option Verdict :=
  if String.eqb failure_msg "Pass (Label)" then Some Pass
  else if String.eqb failure_msg "Fail (Label)" then Some Fail
  else None.

(** The event a row stands for, read off the row alone: the printer and
    the verdict, when both fields can be read and the outcome is one of
    the two recognised values. *)
Definition event_of (r : row) : option (string * Verdict) :=
  failure_msg ← get_strip r "Failure Message" "";
  printer ← get_strip r "Printer Name" "Printer_1";
  v ← classify failure_msg;
  Some (printer, v).

(** How many rows of [rows] are the event [e]. *)
Definition occurrences (e : string * Verdict) (rows : list row) : Z :=
  Z.of_nat (length (filter (fun r => event_of r = Some e) rows)).

(** The events of a whole file for one printer, each row counted once. *)
Definition tally (rows : list row) (printer : string) : Counts :=
  mkCounts (occurrences (printer, Pass) rows) (occurrences (printer, Fail) rows).

(** Neither field of the row is Python's [None]: reading it cannot raise. *)
Definition readable (r : row) : Prop :=
  r !! "Failure Message" ≠ Some None ∧ r !! "Printer Name" ≠ Some None.

(** The file only grows: each content read is a prefix of the next one. *)
Fixpoint append_only (contents : list (list row)) : Prop :=
  match contents with
  | c :: (d :: _) as rest => c `prefix_of` d ∧ append_only rest
  | _ => True
  end.

(** The [try] block of [process_csv] raises: the file cannot be read, or
    one of the rows beyond the cursor cannot. *)
Definition fails (m : t) (csv_path : string) (f : read_result) : Prop :=
  match f with
  | ReadError => True
  | ReadOk rows => scan_rows ∅ (drop (cursor m csv_path) rows) = None
  end.

(** The contents that a sequence of reads delivered. *)
Definition contents_of (reads : list read_result) : list (list row) :=
  omap (fun f => match f with ReadOk rows => Some rows | ReadError => None end) reads.

End Events.

(* ===================================================================== *)
(** ** The Row Parser as the specification words it *)
(* ===================================================================== *)

Module Spec.
Import Monitor Events.

(** Outcome classification by exact string match of the record's
    "Outcome Message" field against "Pass (Label)" and "Fail (Label)";
    any other value, or no such field, is no event. *)
Definition outcome_of (r : row) : option Verdict :=
  match r !! "Outcome Message" with
  | Some (Some s) =>
      if String.eqb s "Pass (Label)" then Some Pass
      else if String.eqb s "Fail (Label)" then Some Fail
      else None
  | _ => None
  end.

(** Exact string match on the field the code reads. *)
Definition exact_outcome_of (r : row) : option Verdict :=
  match r !! "Failure Message" with
  | Some (Some s) =>
      if String.eqb s "Pass (Label)" then Some Pass
      else if String.eqb s "Fail (Label)" then Some Fail
      else None
  | _ => None
  end.

(** The reader's answer to a file that shrank, as the specification
    words it: the cursor is reset to 0 and the file is processed again
    from its first row. *)
Definition reset_and_reprocess (m : t) (csv_path : string) (rows : list row) : t :=
  fst (process_csv (mk (<[csv_path := 0%nat]> (file_row_counts m))
                       (cumulative_counts m))
                   csv_path (ReadOk rows)).

End Spec.

(* ===================================================================== *)
(** ** Sample logs and jobs *)
(* ===================================================================== *)

Module Samples.
Import Monitor.

(** A record with both columns. *)
Definition record (printer failure_msg : string) : row :=
  {[ "Printer Name" := Some printer; "Failure Message" := Some failure_msg ]}.

Definition pass_row : row := record "P1" "Pass (Label)".
Definition fail_row : row := record "P1" "Fail (Label)".

(** The file of scenario B and its growth in scenario C. *)
Definition log3 : list row := [pass_row; fail_row; pass_row].
Definition log5 : list row := log3 ++ [fail_row; pass_row].

(** Rows that classify as nothing: an unknown outcome, an empty outcome,
    and a record with neither column. *)
Definition junk : list row := [record "P1" "Void"; record "P1" ""; ∅].

(** A line with fewer fields than the header: the missing column is
    [None]. *)
Definition short_row : row :=
  {[ "Printer Name" := Some "P1"; "Failure Message" := None ]}.

(** A record that names its outcome column "Outcome Message". *)
Definition outcome_row : row :=
  {[ "Printer Name" := Some "P1"; "Outcome Message" := Some "Pass (Label)" ]}.

(** A record whose outcome is padded with blanks. *)
Definition padded_row : row := record "P1" " Pass (Label) ".

(** A record whose printer column is blank. *)
Definition blank_printer_row : row := record "   " "Pass (Label)".

(** A monitor that has consumed three rows of "log.csv". *)
Definition after3 : t := fst (process_csv init "log.csv" (ReadOk log3)).

(** The dictionary [{"pass": p, "fail": f}] of one printer. *)
Definition snapshot (p f : Z) : gmap string Z := {[ "pass" := p; "fail" := f ]}.

(** The job of scenario D: 250 labels, 100 per roll, on printer P1. *)
Definition job250 : Job.t :=
  Job.mk 7 "ACME" "T-100" "M730" 250 100 "P1" "2025-03-01T08:00:00".

(** Its first roll, as [JobDetailWidget.init_ui] builds it. *)
Definition roll1 : Roll.t := Roll.init 7 1 100 "P1".

(** Roll 1 started, with its baseline captured at 2 passes. *)
Definition roll1_based : Roll.t :=
  Roll.set_baseline (Some 2%Z) (Some 0%Z) (Roll.start_roll roll1).

(** Then paused, and resumed. *)
Definition roll1_paused : Roll.t := Roll.toggle_pause roll1_based.
Definition roll1_resumed : Roll.t := Roll.toggle_pause roll1_paused.

(** Roll 1 started, then stopped. *)
Definition roll1_stopped : Roll.t := Roll.stop_roll (Roll.start_roll roll1).

End Samples.

(* ===================================================================== *)
(** ** The monitor over time *)
(* ===================================================================== *)

Module MonitorRun.
Import Monitor.

(** What one call of [process_csv] does, read off the cursor of its file
    before the call: the cursor after the call, and the batch
    [new_counts] that it adds to the cumulative counters (the cursor is
    kept and nothing is added when the call ends in its [except]
    branch). *)
Definition effect (last_count : nat) (f : read_result)
  : nat * gmap string Counts :=
  match f with
  | ReadError => (last_count, ∅)
  | ReadOk rows =>
      match scan_rows ∅ (drop last_count rows) with
      | None => (last_count, ∅)
      | Some new_counts => (length rows, new_counts)
      end
  end.

(** The states of a monitor: a new one, and the ones the two handlers of
    [CSVEventHandler] lead to, whatever file they are called for and
    whatever reading it gives. *)
Inductive reachable : t → Prop :=
| reach_init : reachable init
| reach_modified m src_path f :
    reachable m → reachable (fst (on_modified m src_path f))
| reach_created m src_path f :
    reachable m → reachable (fst (on_created m src_path f)).

(** The printer a row is attributed to (line 154). *)
Definition printer_of (r : row) : option string :=
  get_strip r "Printer Name" "Printer_1".

End MonitorRun.

(* ===================================================================== *)
(** ** From the monitor to the rolls: [MainWindow] *)
(* ===================================================================== *)

Module Window.
Import Monitor.

(** The dictionary [{"pass": _, "fail": _}] that a [Counts] stands for. *)
Definition counts_dict (c : Counts) : gmap string Z :=
  {[ "pass" := pass c; "fail" := fail c ]}.

(** The table [cumulative_counts] as [update_rolls] receives it. *)
Definition payload (cumulative : gmap string Counts) : gmap string (gmap string Z) :=
  counts_dict <$> cumulative.

(** The way of a signal to one open job: [update_signal.emit] (line 173),
    [MainWindow.handle_csv_update] (lines 613-615) and
    [JobDetailWidget.update_rolls], the signal being delivered before the
    monitor changes its table again.  Without a signal nothing is
    called. *)
Definition notify (o : outcome) (job : Job.t) (rolls : list Roll.t)
  : option (list Roll.t) :=
  match o with
  | Emitted snapshot => Job.update_rolls job rolls (payload snapshot)
  | Raised | Quiet => Some rolls
  end.

End Window.

(* ===================================================================== *)
(** ** The job forms: [JobFormDialog] and [EditJobDialog] *)
(* ===================================================================== *)

Module Dialogs.

(** What the widgets of a form hold when OK is pressed: the texts of the
    line edits and the values of the two spin boxes. *)
Record Form : Type := mkForm {
  customer_input : string;
  job_ticket_input : string;
  inlay_type_input : string;
  quantity_input : Z;
  labels_per_roll_input : Z;
  printer_name_input : string
}.

(** The dictionary [job_data]. *)
Record JobData : Type := mkJobData {
  customer : string;
  job_ticket : string;
  inlay_type : string;
  quantity : Z;
  labels_per_roll : Z;
  printer_name : string
}.

(** [text or "Printer_1"]: the empty string is the only false one. *)
Definition or_default (text default : string) : string :=
  if decide (text = "") then default else text.

(** [JobFormDialog.accept] (lines 501-514): [None] when the dialog stays
    open with [job_data] unset. *)
Definition JobFormDialog_accept (f : Form) : option JobData :=
  if decide (customer_input f = "" ∨ job_ticket_input f = "") then None
  else Some (mkJobData (customer_input f) (job_ticket_input f)
               (inlay_type_input f) (quantity_input f)
               (labels_per_roll_input f)
               (or_default (printer_name_input f) "Printer_1")).

(** [EditJobDialog.accept] (lines 421-430) *)
Definition EditJobDialog_accept (f : Form) : JobData :=
  mkJobData (customer_input f) (job_ticket_input f)
    (inlay_type_input f) (quantity_input f)
    (labels_per_roll_input f)
    (or_default (printer_name_input f) "Printer_1").

(** The tuple of the [jobs] table for the data of a form, as
    [add_job] or [update_job] store it and [get_active_jobs] returns it;
    the identifier and the creation time are the database's. *)
Definition stored_job (id : Z) (created_at : string) (d : JobData) : Job.t :=
  Job.mk id (customer d) (job_ticket d) (inlay_type d) (quantity d)
         (labels_per_roll d) (printer_name d) created_at.

End Dialogs.

(* ===================================================================== *)
(** ** The file-system events: [CSVEventHandler] *)
(* ===================================================================== *)

Module Handler.
Import Monitor.

(** [str.lower] on one character, for code points below 256: the letters
    A-Z and the accented capitals 0xC0-0xDE (the multiplication sign 0xD7
    is not one) move up by 32. *)
Definition lower_char (a : ascii) : ascii :=
  let n := nat_of_ascii a in
  if (Nat.leb 65 n && Nat.leb n 90)
     || (Nat.leb 192 n && Nat.leb n 222 && negb (Nat.eqb n 215))
  then ascii_of_nat (n + 32) else a.

(** [s.lower()] *)
Fixpoint lower (s : string) : string :=
  match s with
  | EmptyString => EmptyString
  | String a s' => String (lower_char a) (lower s')
  end.

(** [s.endswith(suffix)] *)
Fixpoint endswith (s suffix : string) : bool :=
  if String.eqb s suffix then true
  else match s with
       | EmptyString => false
       | String _ s' => endswith s' suffix
       end.

(** A watchdog event, as far as the handler reads it. *)
Record FileEvent : Type := mkEvent { is_directory : bool; src_path : string }.

(** The test of lines 110 and 114:
    [not event.is_directory and event.src_path.lower().endswith('.csv')]. *)
Definition watched (event : FileEvent) : bool :=
  negb (is_directory event) && endswith (lower (src_path event)) ".csv".

(** [CSVEventHandler.on_modified] (lines 109-111); an event that fails
    the test calls nothing, so it leaves the monitor alone and sends no
    signal. *)
Definition on_modified (m : t) (event : FileEvent) (f : read_result) : t * outcome :=
  if watched event then process_csv m (src_path event) f else (m, Quiet).

(** [CSVEventHandler.on_created] (lines 113-116) *)
Definition on_created (m : t) (event : FileEvent) (f : read_result) : t * outcome :=
  if watched event then
    process_csv (mk (<[src_path event := 0%nat]> (file_row_counts m))
                    (cumulative_counts m))
                (src_path event) f
  else (m, Quiet).

End Handler.

(* ===================================================================== *)
(** ** A roll with its notes panel *)
(* ===================================================================== *)

Module Notes.
Import PyStr.

(** A [RollWidget] together with the notes panel that [Roll.t] leaves
    out: the text of [note_input], the list [notes_history], and whether
    [notes_section] is visible. *)
Record t : Type := mk {
  roll : Roll.t;
  note_input : string;
  notes_history : list string;
  notes_section : bool
}.

(** [RollWidget.__init__] and [init_ui]: the panel starts hidden. *)
Definition init (job_id roll_number labels_goal : Z) (printer_name : string) : t :=
  mk (Roll.init job_id roll_number labels_goal printer_name) "" [] false.

(** [RollWidget.start_roll]: the panel is not touched. *)
Definition start_roll (w : t) : t :=
  mk (Roll.start_roll (roll w)) (note_input w) (notes_history w) (notes_section w).

(** [RollWidget.toggle_pause] (lines 258-270): pausing shows the panel
    (line 263), resuming hides it (line 268). *)
Definition toggle_pause (w : t) : t :=
  if decide (Roll.state (roll w) = Roll.running) then
    mk (Roll.toggle_pause (roll w)) (note_input w) (notes_history w) true
  else if decide (Roll.state (roll w) = Roll.paused) then
    mk (Roll.toggle_pause (roll w)) (note_input w) (notes_history w) false
  else w.

(** [RollWidget.stop_roll] (lines 298-306): line 306 hides the panel. *)
Definition stop_roll (w : t) : t :=
  if decide (Roll.state (roll w) = Roll.running
             ∨ Roll.state (roll w) = Roll.paused) then
    mk (Roll.stop_roll (roll w)) (note_input w) (notes_history w) false
  else w.

(** [RollWidget.update_progress] (lines 308-328): line 328 hides the
    panel, in the branch that sets the state to "completed", which only a
    running roll enters. *)
Definition update_progress (w : t) (cumulative_data : gmap string Z) : option t :=
  r' ← Roll.update_progress (roll w) cumulative_data;
  Some (mk r' (note_input w) (notes_history w)
           (if decide (Roll.state (roll w) = Roll.running
                       ∧ Roll.state r' = Roll.completed)
            then false else notes_section w)).

(** [f"[{timestamp}] Paused at {self.current_progress}: {note_text}"] *)
Definition full_note (timestamp : string) (progress : Z) (note_text : string) : string :=
  "[" +:+ timestamp +:+ "] Paused at " +:+ pretty progress +:+ ": " +:+ note_text.

(** [RollWidget.submit_note] (lines 272-282); [timestamp] is the
    formatted [datetime.now()]. *)
Definition submit_note (timestamp : string) (w : t) : t :=
  let note_text := strip (note_input w) in
  if decide (note_text ≠ "") then
    let note := full_note timestamp (Roll.current_progress (roll w)) note_text in
    mk (Roll.log_roll_action "pause note" note (roll w))
       "" (notes_history w ++ [note]) (notes_section w)
  else w.

(** [RollWidget.discard_note] (lines 286-289) *)
Definition discard_note (w : t) : t :=
  mk (roll w) "" (notes_history w) false.

(** What can happen to the widget on screen.  Qt delivers a click only to
    an enabled button, and the text edit and the two buttons of a hidden
    panel cannot be reached. *)
Inductive event : Type :=
| ClickStart
| ClickPause
| ClickStop (yes : bool)
| Update (cumulative_data : gmap string Z)
| TypeNote (text : string)
| ClickSubmit (timestamp : string)
| ClickDiscard.

Definition step (w : t) (e : event) : option t :=
  match e with
  | ClickStart => Some (if Roll.start_btn (roll w) then start_roll w else w)
  | ClickPause => Some (if Roll.pause_btn (roll w) then toggle_pause w else w)
  | ClickStop yes =>
      Some (if Roll.stop_btn (roll w) then (if yes then stop_roll w else w) else w)
  | Update c => update_progress w c
  | TypeNote text =>
      Some (if notes_section w
            then mk (roll w) text (notes_history w) (notes_section w) else w)
  | ClickSubmit timestamp =>
      Some (if notes_section w then submit_note timestamp w else w)
  | ClickDiscard => Some (if notes_section w then discard_note w else w)
  end.

Inductive reachable : t → Prop :=
| reach_init j n g p : reachable (init j n g p)
| reach_step w e w' : reachable w → step w e = Some w' → reachable w'.

(** The notes among the logged actions, oldest first. *)
Definition logged_notes (actions : list (string * string)) : list string :=
  snd <$> filter (fun a => fst a = "pause note") actions.

(** The shape of the log of a roll, by state: nothing for an idle roll;
    otherwise one "start", then resumes and pause notes, then "stop" for
    a stopped roll and "completed" for a completed one. *)
Definition log_shape (s : Roll.State) (actions : list (string * string)) : Prop :=
  match s with
  | Roll.idle => actions = []
  | _ =>
      ∃ middle,
        Forall (fun a => a = ("resume", "") ∨ fst a = "pause note") middle
        ∧ actions
          = (("start", "") :: middle
             ++ match s with
                | Roll.stopped => [("stop", "")]
                | Roll.completed => [("completed", "Roll complete")]
                | _ => []
                end)%list
  end.

(** What holds of every widget on screen (see [NotesMore]). *)
Definition on_screen (w : t) : Prop :=
  Roll.on_screen (roll w)
  ∧ (notes_section w = true → Roll.state (roll w) = Roll.paused)
  ∧ notes_history w = logged_notes (Roll.actions (roll w))
  ∧ log_shape (Roll.state (roll w)) (Roll.actions (roll w)).

End Notes.

(* ===================================================================== *)
(** ** The database: [DatabaseManager] *)
(* ===================================================================== *)

Module Database.

(** A row of the table [jobs] (lines 34-44). *)
Record JobRow : Type := mkJob {
  id : Z;
  customer : string;
  job_ticket : string;
  inlay_type : string;
  quantity : Z;
  labels_per_roll : Z;
  printer_name : string;
  created_at : string;
  completed : Z
}.

(** A row of the table [roll_tracking] (lines 47-55), without its own
    key, which nothing reads. *)
Record TrackRow : Type := mkTrack {
  job_id : Z;
  roll_number : Z;
  action : string;
  note : string;
  timestamp : string
}.

(** The two tables, rows in the order of insertion, and the counter that
    SQLite keeps for the AUTOINCREMENT key of [jobs]: the largest key
    ever given out. *)
Record t : Type := mk {
  jobs : list JobRow;
  jobs_seq : Z;
  roll_tracking : list TrackRow
}.

(** The tables of a new database file. *)
Definition empty : t := mk [] 0 [].

(** The largest key in the table, 0 for an empty one. *)
Definition max_rowid (rows : list JobRow) : Z := foldr Z.max 0%Z (id <$> rows).

(** [add_job] (lines 59-67): the INSERT leaves [id] to AUTOINCREMENT (one
    more than the largest key that ever existed) and [completed] to its
    default 0; the result is [cursor.lastrowid].  [now] is
    [datetime.now().isoformat()]. *)
Definition add_job (db : t) (now : string)
    (customer job_ticket inlay_type : string) (quantity labels_per_roll : Z)
    (printer_name : string) : t * Z :=
  let rowid := (Z.max (jobs_seq db) (max_rowid (jobs db)) + 1)%Z in
  (mk (jobs db ++ [mkJob rowid customer job_ticket inlay_type quantity
                     labels_per_roll printer_name now 0])
      rowid (roll_tracking db),
   rowid).

(** The eight columns that the two SELECTs return, as the tuple [job]. *)
Definition as_job (r : JobRow) : Job.t :=
  Job.mk (id r) (customer r) (job_ticket r) (inlay_type r) (quantity r)
         (labels_per_roll r) (printer_name r) (created_at r).

(** [get_active_jobs] (lines 69-72): [WHERE completed=0] *)
Definition get_active_jobs (db : t) : list Job.t :=
  as_job <$> filter (fun r => completed r = 0%Z) (jobs db).

(** [get_completed_jobs] (lines 74-77): [WHERE completed=1] *)
Definition get_completed_jobs (db : t) : list Job.t :=
  as_job <$> filter (fun r => completed r = 1%Z) (jobs db).

(** [log_roll_action] (lines 79-86) *)
Definition log_roll_action (db : t) (now : string)
    (job_id roll_number : Z) (action note : string) : t :=
  mk (jobs db) (jobs_seq db)
     (roll_tracking db ++ [mkTrack job_id roll_number action note now]).

(** [update_job_completion] (lines 88-91): [UPDATE jobs SET completed=?
    WHERE id=?] *)
Definition update_job_completion (db : t) (job_id completed : Z) : t :=
  mk ((fun r => if decide (id r = job_id)
                then mkJob (id r) (customer r) (job_ticket r) (inlay_type r)
                       (quantity r) (labels_per_roll r) (printer_name r)
                       (created_at r) completed
                else r) <$> jobs db)
     (jobs_seq db) (roll_tracking db).

(** [update_job] (lines 93-100) *)
Definition update_job (db : t) (job_id : Z)
    (customer job_ticket inlay_type : string) (quantity labels_per_roll : Z)
    (printer_name : string) : t :=
  mk ((fun r => if decide (id r = job_id)
                then mkJob (id r) customer job_ticket inlay_type quantity
                       labels_per_roll printer_name (created_at r) (completed r)
                else r) <$> jobs db)
     (jobs_seq db) (roll_tracking db).

(** [JobDetailWidget.complete_job] (lines 374-383), the user having
    answered Yes. *)
Definition complete_job (db : t) (now : string) (job : Job.t) : t :=
  log_roll_action (update_job_completion db (Job.id job) 1) now
    (Job.id job) 0 "job completed" "Job marked as complete".

(** [MainWindow.open_job_form] (lines 577-586), the form having been
    accepted with the data [d]. *)
Definition open_job_form (db : t) (now : string) (d : Dialogs.JobData) : t * Z :=
  add_job db now (Dialogs.customer d) (Dialogs.job_ticket d)
    (Dialogs.inlay_type d) (Dialogs.quantity d) (Dialogs.labels_per_roll d)
    (Dialogs.printer_name d).

(** [MainWindow.edit_job] (lines 588-600), for the selected [job], the
    dialog having been accepted with the data [d]. *)
Definition edit_job (db : t) (job : Job.t) (d : Dialogs.JobData) : t :=
  update_job db (Job.id job) (Dialogs.customer d) (Dialogs.job_ticket d)
    (Dialogs.inlay_type d) (Dialogs.quantity d) (Dialogs.labels_per_roll d)
    (Dialogs.printer_name d).

(** The keys of the table are distinct, and every row is flagged 0 or 1. *)
Definition well_formed (db : t) : Prop :=
  NoDup (id <$> jobs db)
  ∧ Forall (fun r => completed r = 0%Z ∨ completed r = 1%Z) (jobs db).

(** What the application does to the database. *)
Inductive op : Type :=
| OpAdd (now : string) (d : Dialogs.JobData)
| OpEdit (job : Job.t) (d : Dialogs.JobData)
| OpComplete (now : string) (job : Job.t)
| OpLog (now : string) (job_id roll_number : Z) (action note : string).

Definition apply (db : t) (o : op) : t :=
  match o with
  | OpAdd now d => fst (open_job_form db now d)
  | OpEdit job d => edit_job db job d
  | OpComplete now job => complete_job db now job
  | OpLog now j n a x => log_roll_action db now j n a x
  end.

End Database.

(* ===================================================================== *)
(** ** More sample data *)
(* ===================================================================== *)

Module MoreSamples.
Import Samples.

(** Roll 1 started, with the counters of P1 after [log3] as baseline. *)
Definition roll1_synced : Roll.t :=
  Roll.set_baseline (Some 2%Z) (Some 1%Z) (Roll.start_roll roll1).

(** The job of scenario D with a trailing blank in its printer name. *)
Definition job_blank : Job.t :=
  Job.mk 8 "ACME" "T-101" "M730" 250 100 "P1 " "2025-03-01T09:00:00".

(** A form left with its spin boxes at 0 and no printer name. *)
Definition empty_spins : Dialogs.Form :=
  Dialogs.mkForm "ACME" "T-102" "M730" 0 0 "".

(** A last line caught while it was being written: the outcome is cut
    short, and the record classifies as nothing. *)
Definition torn_row : Monitor.row := record "P1" "Pass (La".

(** A job on a second printer, its first roll, and a pass of that
    printer. *)
Definition job_p2 : Job.t :=
  Job.mk 9 "ACME" "T-103" "M730" 250 100 "P2" "2025-03-02T08:00:00".
Definition roll_p2 : Roll.t := Roll.init 9 1 100 "P2".
Definition pass_p2 : Monitor.row := record "P2" "Pass (Label)".

(** A database with one active job, the job of scenario D. *)
Definition db1 : Database.t :=
  fst (Database.add_job Database.empty "2025-03-01T08:00:00"
         "ACME" "T-100" "M730" 250 100 "P1").

(** That job as [get_active_jobs] returns it. *)
Definition job1 : Job.t :=
  Job.mk 1 "ACME" "T-100" "M730" 250 100 "P1" "2025-03-01T08:00:00".

(** The data of an edit of that job: 300 labels. *)
Definition edit300 : Dialogs.JobData :=
  Dialogs.mkJobData "ACME" "T-100" "M730" 300 100 "P1".

(** Roll 1 with its panel: started, paused, and a note typed in. *)
Definition noted : Notes.t :=
  Notes.mk (Roll.toggle_pause (Roll.start_roll Samples.roll1))
           "  ribbon changed " [] true.

End MoreSamples.

(* ===================================================================== *)
(** ** Properties of the CSV monitor *)
(* ===================================================================== *)

Module MonitorFacts.
Import PyStr Monitor Events.

Lemma counts_eq (c d : Counts) : pass c = pass d → fail c = fail d → c = d.
Proof. destruct c, d; simpl; congruence. Qed.

Lemma add_counts_zero_r c : add_counts c zero = c.
Proof. apply counts_eq; simpl; lia. Qed.

Lemma add_counts_zero_l c : add_counts zero c = c.
Proof. apply counts_eq; simpl; lia. Qed.

Lemma add_counts_assoc a b c :
  add_counts (add_counts a b) c = add_counts a (add_counts b c).
Proof. apply counts_eq; simpl; lia. Qed.

(** *** Tallies *)

Lemma occurrences_app e (l1 l2 : list row) :
  occurrences e (l1 ++ l2) = (occurrences e l1 + occurrences e l2)%Z.
Proof. unfold occurrences. rewrite filter_app, length_app. lia. Qed.

Lemma tally_nil p : tally [] p = zero.
Proof. reflexivity. Qed.

Lemma tally_app (l1 l2 : list row) p :
  tally (l1 ++ l2) p = add_counts (tally l1 p) (tally l2 p).
Proof. apply counts_eq; simpl; apply occurrences_app. Qed.

Lemma tally_cons r (rows : list row) p :
  tally (r :: rows) p = add_counts (tally [r] p) (tally rows p).
Proof. apply (tally_app [r]). Qed.

Lemma tally_one r p :
  tally [r] p =
    match event_of r with
    | Some (q, Pass) => if decide (q = p) then mkCounts 1 0 else zero
    | Some (q, Fail) => if decide (q = p) then mkCounts 0 1 else zero
    | None => zero
    end.
Proof.
  unfold tally, occurrences. rewrite !filter_cons, !filter_nil.
  destruct (event_of r) as [[q []]|]; repeat case_decide;
    simplify_eq; try reflexivity; try congruence.
Qed.

(** *** The loop over the new rows *)

Lemma row_step_counts nc r nc' p :
  row_step nc r = Some nc' →
  default zero (nc' !! p) = add_counts (default zero (nc !! p)) (tally [r] p).
Proof.
  unfold row_step. rewrite tally_one. unfold event_of, classify.
  destruct (get_strip r "Failure Message" "") as [msg|]; simpl; [|done].
  destruct (get_strip r "Printer Name" "Printer_1") as [q|]; simpl; [|done].
  intros [= <-].
  set (nc1 := match nc !! q with None => <[q:=zero]> nc | Some _ => nc end).
  assert (H1 : default zero (nc1 !! p) = default zero (nc !! p)).
  { subst nc1. destruct (nc !! q) eqn:E; [done|].
    destruct (decide (q = p)) as [->|]; [by rewrite lookup_insert_eq, E|].
    by rewrite lookup_insert_ne. }
  assert (H2 : ∀ f, default zero (alter f q nc1 !! p)
                 = if decide (q = p) then f (default zero (nc !! p))
                   else default zero (nc !! p)).
  { intros f. rewrite lookup_alter. case_decide; [|done]. subst p.
    rewrite <- H1. subst nc1. destruct (nc !! q) eqn:E; simpl.
    - by rewrite E.
    - by rewrite lookup_insert_eq. }
  destruct (String.eqb msg "Pass (Label)"); simpl.
  { rewrite H2. case_decide; [apply counts_eq; simpl; lia|by rewrite add_counts_zero_r]. }
  destruct (String.eqb msg "Fail (Label)"); simpl.
  { rewrite H2. case_decide; [apply counts_eq; simpl; lia|by rewrite add_counts_zero_r]. }
  by rewrite H1, add_counts_zero_r.
Qed.

Lemma scan_rows_counts rows : ∀ nc nc' p,
  scan_rows nc rows = Some nc' →
  default zero (nc' !! p) = add_counts (default zero (nc !! p)) (tally rows p).
Proof.
  induction rows as [|r rows IH]; intros nc nc' p; simpl.
  - intros [= <-]. by rewrite tally_nil, add_counts_zero_r.
  - destruct (row_step nc r) as [nc1|] eqn:E; simpl; [|done].
    intros H. rewrite (IH _ _ p H), (row_step_counts _ _ _ p E), (tally_cons r rows).
    apply add_counts_assoc.
Qed.

Lemma row_step_readable nc r : readable r → is_Some (row_step nc r).
Proof.
  intros [H1 H2]. unfold row_step, get_strip.
  destruct (r !! "Failure Message") as [[?|]|]; try done;
    destruct (r !! "Printer Name") as [[?|]|]; try done; simpl; eauto.
Qed.

Lemma scan_rows_readable rows : ∀ nc,
  Forall readable rows → is_Some (scan_rows nc rows).
Proof.
  induction rows as [|r rows IH]; intros nc H; simpl; [eauto|].
  inversion H; subst.
  destruct (row_step_readable nc r) as [nc1 ->]; [done|]. simpl. by apply IH.
Qed.

(** A row that was stepped over has left its printer in [new_counts]. *)
Lemma row_step_nonempty nc r nc' : row_step nc r = Some nc' → nc' ≠ ∅.
Proof.
  unfold row_step.
  destruct (get_strip r "Failure Message" "") as [msg|]; simpl; [|done].
  destruct (get_strip r "Printer Name" "Printer_1") as [q|]; simpl; [|done].
  intros [= <-] He.
  assert (Hq : is_Some ((match nc !! q with None => <[q:=zero]> nc | Some _ => nc end) !! q)).
  { destruct (nc !! q) eqn:E; [by rewrite E|by rewrite lookup_insert_eq]. }
  apply (f_equal (fun m : gmap string Counts => m !! q)) in He.
  rewrite lookup_empty in He.
  destruct (String.eqb msg "Pass (Label)"); [|destruct (String.eqb msg "Fail (Label)")];
    try (rewrite lookup_alter in He; case_decide; [|done]);
    destruct Hq as [c Hc]; rewrite Hc in He; done.
Qed.

(** *** The loop over [new_counts] *)

Lemma accumulate_lookup cum nc p :
  accumulate cum nc !! p =
    match nc !! p with
    | Some n => Some (add_counts (default zero (cum !! p)) n)
    | None => cum !! p
    end.
Proof.
  unfold accumulate. revert p.
  apply (map_fold_weak_ind (fun res (m : gmap string Counts) => ∀ p,
    res !! p = match m !! p with
               | Some n => Some (add_counts (default zero (cum !! p)) n)
               | None => cum !! p
               end)).
  - intros p. by rewrite lookup_empty.
  - intros i x m res Hi IH p. rewrite lookup_alter.
    destruct (decide (i = p)) as [->|Hne].
    + rewrite lookup_insert_eq. specialize (IH p). rewrite Hi in IH.
      destruct (res !! p) as [c|] eqn:E; simpl.
      * rewrite E. simpl. by rewrite <- IH.
      * rewrite lookup_insert_eq. simpl. by rewrite <- IH.
    + rewrite lookup_insert_ne by done. rewrite <- IH.
      destruct (res !! i); [done|]. by rewrite lookup_insert_ne.
Qed.

Lemma accumulate_empty cum : accumulate cum ∅ = cum.
Proof. apply map_eq. intros p. by rewrite accumulate_lookup, lookup_empty. Qed.

Lemma accumulate_counts cum nc p :
  default zero (accumulate cum nc !! p)
  = add_counts (default zero (cum !! p)) (default zero (nc !! p)).
Proof.
  rewrite accumulate_lookup. destruct (nc !! p); simpl; [done|].
  by rewrite add_counts_zero_r.
Qed.

(** *** One call of [process_csv] *)

Lemma seen_lookup m path q :
  default 0%nat (seen m path !! q) = cursor m q.
Proof.
  unfold seen, cursor. destruct (file_row_counts m !! path) eqn:E; [done|].
  destruct (decide (path = q)) as [->|]; [by rewrite lookup_insert_eq, E|].
  by rewrite lookup_insert_ne.
Qed.

Lemma insert_seen m path n :
  <[path := n]> (seen m path) = <[path := n]> (file_row_counts m).
Proof.
  unfold seen. destruct (file_row_counts m !! path); [done|].
  by rewrite insert_insert_eq.
Qed.

(** [process_csv] by cases on the loop over the new rows. *)
Lemma process_csv_rows m path rows :
  process_csv m path (ReadOk rows) =
    match scan_rows ∅ (drop (cursor m path) rows) with
    | None => (mk (seen m path) (cumulative_counts m), Raised)
    | Some nc =>
        (mk (<[path := length rows]> (file_row_counts m))
            (accumulate (cumulative_counts m) nc),
         if decide (nc = ∅) then Quiet
         else Emitted (accumulate (cumulative_counts m) nc))
    end.
Proof.
  unfold process_csv.
  rewrite (seen_lookup m path path).
  destruct (scan_rows ∅ (drop (cursor m path) rows)); [|done].
  by rewrite insert_seen.
Qed.

Lemma process_csv_raised m path f m' :
  process_csv m path f = (m', Raised) →
  m' = mk (seen m path) (cumulative_counts m).
Proof.
  destruct f as [|rows]; [by intros [= <-]|].
  rewrite process_csv_rows.
  destruct (scan_rows ∅ (drop (cursor m path) rows)); [|by intros [= <-]].
  case_decide; discriminate.
Qed.

Lemma process_csv_ok m path rows m' o :
  process_csv m path (ReadOk rows) = (m', o) → o ≠ Raised →
  file_row_counts m' = <[path := length rows]> (file_row_counts m) ∧
  ∀ p, counters m' p
       = add_counts (counters m p) (tally (drop (cursor m path) rows) p).
Proof.
  rewrite process_csv_rows.
  destruct (scan_rows ∅ (drop (cursor m path) rows)) as [nc|] eqn:E;
    [|intros [= <- <-]; done].
  intros [= <- <-] _. simpl. split; [done|]. intros p. unfold counters. simpl.
  rewrite accumulate_counts. f_equal.
  rewrite (scan_rows_counts _ _ _ p E), lookup_empty. apply add_counts_zero_l.
Qed.

Lemma process_csv_readable m path rows :
  Forall readable rows → snd (process_csv m path (ReadOk rows)) ≠ Raised.
Proof.
  intros H. rewrite process_csv_rows.
  destruct (scan_rows_readable (drop (cursor m path) rows) ∅) as [nc ->].
  { apply Forall_drop, H. }
  simpl. case_decide; done.
Qed.

(** Nothing beyond the cursor: the call changes nothing and is silent. *)
Lemma process_csv_no_new_rows m path rows :
  file_row_counts m !! path = Some (length rows) →
  process_csv m path (ReadOk rows) = (m, Quiet).
Proof.
  intros H. rewrite process_csv_rows. unfold cursor. rewrite H. simpl.
  rewrite drop_all. simpl. rewrite accumulate_empty, (insert_id _ _ _ H).
  rewrite decide_True by done. by destruct m.
Qed.

(** Only the rows at or beyond the cursor, and the number of rows, are
    looked at. *)
Lemma process_csv_beyond_cursor m path rows rows' :
  length rows = length rows' →
  drop (cursor m path) rows = drop (cursor m path) rows' →
  process_csv m path (ReadOk rows) = process_csv m path (ReadOk rows').
Proof. intros Hl Hd. by rewrite !process_csv_rows, Hl, Hd. Qed.

(** *** Sequences of calls on one file *)

Lemma run_app m path l1 l2 :
  run m path (l1 ++ l2) = run (run m path l1) path l2.
Proof. apply foldl_app. Qed.

Lemma append_only_cons (c d : list row) rest :
  append_only (c :: d :: rest) → c `prefix_of` d ∧ append_only (d :: rest).
Proof. done. Qed.

Lemma append_only_skip (c d : list row) rest :
  c `prefix_of` d → append_only (d :: rest) → append_only (c :: rest).
Proof.
  destruct rest as [|e rest]; simpl; [done|].
  intros Hcd [Hde Hrest]. split; [by etrans|done].
Qed.

Lemma run_append_only path reads : ∀ m c0 base final,
  cursor m path = length c0 →
  (∀ p, counters m p = add_counts (base p) (tally c0 p)) →
  append_only (c0 :: contents_of (reads ++ [ReadOk final])) →
  snd (process_csv (run m path reads) path (ReadOk final)) ≠ Raised →
  file_row_counts (run m path (reads ++ [ReadOk final])) !! path
    = Some (length final) ∧
  ∀ p, counters (run m path (reads ++ [ReadOk final])) p
       = add_counts (base p) (tally final p).
Proof.
  induction reads as [|f reads IH]; intros m c0 base final Hcur Hcnt Hchain Hok.
  - simpl in Hchain. destruct Hchain as [[k ->] _].
    change (run m path []) with m in Hok.
    change (run m path ([] ++ [ReadOk (c0 ++ k)]))
      with (fst (process_csv m path (ReadOk (c0 ++ k)))).
    destruct (process_csv m path (ReadOk (c0 ++ k))) as [m1 o] eqn:E.
    destruct (process_csv_ok _ _ _ _ _ E Hok) as [Hf Hc]. simpl fst. split.
    + by rewrite Hf, lookup_insert_eq.
    + intros p. rewrite Hc, Hcnt, Hcur, drop_app_length, tally_app.
      apply add_counts_assoc.
  - change (run m path ((f :: reads) ++ [ReadOk final]))
      with (run (fst (process_csv m path f)) path (reads ++ [ReadOk final])).
    change (run m path (f :: reads))
      with (run (fst (process_csv m path f)) path reads) in Hok.
    destruct (process_csv m path f) as [m1 o] eqn:E. simpl fst in *.
    assert (o = Raised ∨ o ≠ Raised) as [->|Ho]
      by (destruct o; [by left|by right|by right]).
    + apply process_csv_raised in E. subst m1.
      apply (IH _ c0 base final); [| |  |done].
      * unfold cursor. simpl. rewrite (seen_lookup m path path). done.
      * done.
      * destruct f as [|rows]; [done|].
        apply (append_only_cons c0 rows) in Hchain.
        destruct Hchain as [Hp Hchain].
        exact (append_only_skip c0 rows _ Hp Hchain).
    + destruct f as [|rows]; [by inversion E|].
      apply (append_only_cons c0 rows) in Hchain.
      destruct Hchain as [[k ->] Hchain].
      destruct (process_csv_ok _ _ _ _ _ E Ho) as [Hf Hc].
      apply (IH _ (c0 ++ k)%list base final); [| |exact Hchain|done].
      * unfold cursor. by rewrite Hf, lookup_insert_eq.
      * intros p. rewrite Hc, Hcnt, Hcur, drop_app_length, tally_app.
        apply add_counts_assoc.
Qed.

Lemma run_repeat m path rows n :
  file_row_counts m !! path = Some (length rows) →
  run m path (replicate n (ReadOk rows)) = m.
Proof.
  intros H. induction n as [|n IH]; [done|]. simpl.
  change (run (fst (process_csv m path (ReadOk rows))) path
            (replicate n (ReadOk rows)) = m).
  by rewrite (process_csv_no_new_rows _ _ _ H).
Qed.

Import MonitorRun.

(** *** Which printers have an entry *)

Lemma row_step_dom nc r nc' :
  row_step nc r = Some nc' →
  ∃ q, printer_of r = Some q
       ∧ ∀ p, is_Some (nc' !! p) ↔ is_Some (nc !! p) ∨ p = q.
Proof.
  unfold row_step, printer_of.
  destruct (get_strip r "Failure Message" "") as [msg|]; simpl; [|done].
  destruct (get_strip r "Printer Name" "Printer_1") as [q|]; simpl; [|done].
  intros [= <-]. exists q. split; [done|]. intros p.
  assert (H : is_Some ((match nc !! q with
                        | None => <[q:=zero]> nc
                        | Some _ => nc
                        end) !! p) ↔ is_Some (nc !! p) ∨ p = q).
  { destruct (nc !! q) eqn:E.
    - split; [by left|]. intros [Hx| ->]; [done|]. by rewrite E.
    - rewrite lookup_insert. destruct (decide (q = p)) as [->|Hne].
      + split; [by right|eauto].
      + split; [by left|]. intros [Hx|Hx]; [done|]. by subst. }
  destruct (String.eqb msg "Pass (Label)"); [|destruct (String.eqb msg "Fail (Label)")];
    rewrite ?lookup_alter; try case_decide; subst;
    rewrite ?fmap_is_Some; exact H.
Qed.

Lemma scan_rows_dom rows : ∀ nc nc',
  scan_rows nc rows = Some nc' →
  ∀ p, is_Some (nc' !! p)
       ↔ is_Some (nc !! p) ∨ Exists (fun r => printer_of r = Some p) rows.
Proof.
  induction rows as [|r rows IH]; intros nc nc'; simpl.
  - intros [= <-] p. rewrite Exists_nil. naive_solver.
  - destruct (row_step nc r) as [nc1|] eqn:E; simpl; [|done].
    intros H p. destruct (row_step_dom _ _ _ E) as (q & Hq & Hd).
    rewrite (IH _ _ H p), Hd, Exists_cons, Hq. naive_solver.
Qed.

Lemma accumulate_dom cum nc p :
  is_Some (accumulate cum nc !! p) ↔ is_Some (cum !! p) ∨ is_Some (nc !! p).
Proof.
  rewrite accumulate_lookup. destruct (nc !! p) as [n|]; simpl.
  - split; [by right; eauto|eauto].
  - split; [by left|]. by intros [H|[? [=]]].
Qed.

End MonitorFacts.

(* ===================================================================== *)
(** ** The claims on the CSV monitor *)
(* ===================================================================== *)

Module MonitorClaims.
Import PyStr Monitor Events Samples MonitorFacts MonitorRun.

Lemma lstrip_blank s : blank s = true → lstrip s = "".
Proof.
  induction s as [|a s IH]; simpl; [done|].
  destruct (isspace a); simpl; [exact IH|discriminate].
Qed.

Lemma strip_blank s : blank s = true → strip s = "".
Proof. intros H. unfold strip. by rewrite (lstrip_blank s H). Qed.

Lemma event_of_fields r msg q :
  get_strip r "Failure Message" "" = Some msg →
  get_strip r "Printer Name" "Printer_1" = Some q →
  event_of r = (fun v => (q, v)) <$> classify msg.
Proof.
  intros H1 H2. unfold event_of. rewrite H1, H2. simpl.
  by destruct (classify msg).
Qed.

(** A row with a [None] field stops the call; the cursor stays before it. *)
Example short_row_raises :
  process_csv init "log.csv" (ReadOk [short_row])
  = (mk {[ "log.csv" := 0%nat ]} ∅, Raised).
Proof. reflexivity. Qed.

(** [on_created] is the path of the handler that resets the cursor. *)
Lemma on_created_resets m path rows :
  fst (on_created m path (ReadOk rows)) = Spec.reset_and_reprocess m path rows.
Proof. reflexivity. Qed.

(** Scenario A: an empty file changes no counter and leaves the cursor
    at 0. *)
Example scenario_A :
  process_csv init "log.csv" (ReadOk [])
  = (mk {[ "log.csv" := 0%nat ]} ∅, Quiet).
Proof. reflexivity. Qed.

(** Scenario B: three rows of P1, pass, fail, pass. *)
Example scenario_B :
  cursor after3 "log.csv" = 3%nat ∧ counters after3 "P1" = mkCounts 2 1.
Proof. by vm_compute. Qed.

(** Scenario C: the file has grown to five rows. *)
Example scenario_C :
  cursor (fst (process_csv after3 "log.csv" (ReadOk log5))) "log.csv" = 5%nat
  ∧ counters (fst (process_csv after3 "log.csv" (ReadOk log5))) "P1"
    = mkCounts 3 2.
Proof. by vm_compute. Qed.

(** *** C1: each row is counted exactly once *)

(** C1, as stated, fails.  A last line read while it was being written
    is consumed as a row that classifies as nothing, and is not read again
    when the line is complete: of the two passes of the final content one
    is counted.  And a line shorter than the header stops every call: of
    a final content with one pass nothing is counted. *)
Lemma torn_line_event_lost :
  snd (process_csv init "log.csv" (ReadOk [pass_row; MoreSamples.torn_row])) ≠ Raised
  ∧ snd (process_csv (run init "log.csv" [ReadOk [pass_row; MoreSamples.torn_row]])
           "log.csv" (ReadOk [pass_row; pass_row])) ≠ Raised
  ∧ counters (run init "log.csv"
                [ReadOk [pass_row; MoreSamples.torn_row]; ReadOk [pass_row; pass_row]])
             "P1" = mkCounts 1 0
  ∧ tally [pass_row; pass_row] "P1" = mkCounts 2 0
  ∧ counters (run init "log.csv"
                [ReadOk [pass_row; short_row]; ReadOk [pass_row; short_row]])
             "P1" = zero
  ∧ tally [pass_row; short_row] "P1" = mkCounts 1 0.
Proof.
  split; [vm_compute; discriminate|]. split; [vm_compute; discriminate|].
  by vm_compute.
Qed.

(** C1, amended.  Take a file that only grows by whole rows (each content
    read is, row by row, a prefix of the next) and any sequence of
    [process_csv] calls on it, starting before any of its rows was
    consumed; duplicate calls on an unchanged content and calls that fail
    are allowed anywhere.  If the last call,
    which reads the content [final], does not raise, then the cursor is
    the number of rows of [final], every printer's counters have grown by
    exactly the events of [final], each row counted once, and calling
    again on the unchanged file, any number of times, reads no row, sends
    no signal and changes nothing.  A call looks only at the rows at or
    beyond the cursor. *)
Theorem process_csv_counts_each_row_once m path reads final :
  cursor m path = 0%nat →
  append_only (contents_of (reads ++ [ReadOk final])) →
  snd (process_csv (run m path reads) path (ReadOk final)) ≠ Raised →
  cursor (run m path (reads ++ [ReadOk final])) path = length final
  ∧ (∀ p, counters (run m path (reads ++ [ReadOk final])) p
          = add_counts (counters m p) (tally final p))
  ∧ process_csv (run m path (reads ++ [ReadOk final])) path (ReadOk final)
    = (run m path (reads ++ [ReadOk final]), Quiet)
  ∧ (∀ n, run m path ((reads ++ [ReadOk final]) ++ replicate n (ReadOk final))
          = run m path (reads ++ [ReadOk final]))
  ∧ (∀ m0 rows rows',
       length rows = length rows' →
       drop (cursor m0 path) rows = drop (cursor m0 path) rows' →
       process_csv m0 path (ReadOk rows) = process_csv m0 path (ReadOk rows')).
Proof.
  intros Hcur Hchain Hok.
  destruct (run_append_only path reads m [] (counters m) final) as [Hf Hc].
  - done.
  - intros p. by rewrite tally_nil, add_counts_zero_r.
  - destruct (contents_of (reads ++ [ReadOk final])) as [|d rest] eqn:E; [done|].
    split; [apply prefix_nil|done].
  - done.
  - repeat split.
    + unfold cursor. by rewrite Hf.
    + done.
    + by apply process_csv_no_new_rows.
    + intros n. rewrite run_app. by apply run_repeat.
    + intros m0 rows rows'. apply process_csv_beyond_cursor.
Qed.

(** Scenarios B and C with a duplicate notification and a failed read in
    between: three rows, the same three rows again, a read error, then
    five rows. *)
Lemma process_csv_counts_each_row_once_witness :
  cursor (run init "log.csv"
            ([ReadOk log3; ReadOk log3; ReadError] ++ [ReadOk log5])) "log.csv" = 5%nat
  ∧ counters (run init "log.csv"
                ([ReadOk log3; ReadOk log3; ReadError] ++ [ReadOk log5])) "P1"
    = mkCounts 3 2.
Proof.
  destruct (process_csv_counts_each_row_once init "log.csv"
              [ReadOk log3; ReadOk log3; ReadError] log5)
    as (Hc & Hn & _).
  - reflexivity.
  - simpl. repeat split; [by exists []|by exists [fail_row; pass_row]].
  - vm_compute. discriminate.
  - split; [exact Hc|]. rewrite Hn. reflexivity.
Defined.

(** *** C4: a file that shrank *)

(** C4, as stated, fails: after three rows of "log.csv" were consumed
    (two passes and a fail of printer P1) the file is found with a single
    row.  [process_csv] reads no row and leaves P1 at 2 passes, where
    resetting the cursor and reprocessing would count the row again. *)
Lemma shrunk_file_not_reprocessed :
  (length [pass_row] < cursor after3 "log.csv")%nat
  ∧ fst (process_csv after3 "log.csv" (ReadOk [pass_row]))
    ≠ Spec.reset_and_reprocess after3 "log.csv" [pass_row]
  ∧ counters (fst (process_csv after3 "log.csv" (ReadOk [pass_row]))) "P1"
    = mkCounts 2 1
  ∧ counters (Spec.reset_and_reprocess after3 "log.csv" [pass_row]) "P1"
    = mkCounts 3 1.
Proof.
  split; [vm_compute; lia|]. split; [|by vm_compute].
  intros H. apply (f_equal (fun m => counters m "P1")) in H.
  vm_compute in H. discriminate.
Qed.

(** C4, amended.  When the file has fewer rows than the cursor,
    [process_csv] reads no row, changes no counter, sends no signal, and
    sets the cursor to the number of rows the file now has. *)
Theorem shrunk_file_reads_nothing m path (rows : list row) :
  (length rows < cursor m path)%nat →
  process_csv m path (ReadOk rows)
  = (mk (<[path := length rows]> (file_row_counts m)) (cumulative_counts m),
     Quiet).
Proof.
  intros H. rewrite process_csv_rows, drop_ge by lia. simpl.
  by rewrite accumulate_empty, decide_True.
Qed.

Lemma shrunk_file_reads_nothing_witness :
  process_csv after3 "log.csv" (ReadOk [pass_row])
  = (mk (<[ "log.csv" := 1%nat ]> (file_row_counts after3))
        (cumulative_counts after3), Quiet).
Proof. apply (shrunk_file_reads_nothing after3 "log.csv" [pass_row]). vm_compute. lia. Defined.

(** *** C7: the classification of a row *)

(** C7, as stated, fails.  A record whose "Outcome Message" is
    "Pass (Label)" is consumed without any counter moving, and a record
    whose "Failure Message" is " Pass (Label) ", which is not exactly the
    sentinel, is counted as a pass. *)
Lemma outcome_message_not_read :
  Spec.outcome_of outcome_row = Some Pass
  ∧ counters (fst (process_csv init "log.csv" (ReadOk [outcome_row]))) "P1" = zero
  ∧ cursor (fst (process_csv init "log.csv" (ReadOk [outcome_row]))) "log.csv" = 1%nat
  ∧ Spec.exact_outcome_of padded_row = None
  ∧ counters (fst (process_csv init "log.csv" (ReadOk [padded_row]))) "P1"
    = mkCounts 1 0.
Proof. by vm_compute. Qed.

(** One step of the loop, on any [new_counts]. *)
Lemma row_step_effect nc r msg q :
  get_strip r "Failure Message" "" = Some msg →
  get_strip r "Printer Name" "Printer_1" = Some q →
  ∃ nc', row_step nc r = Some nc'
         ∧ nc' !! q
           = Some (if String.eqb msg "Pass (Label)"
                   then incr_pass (default zero (nc !! q))
                   else if String.eqb msg "Fail (Label)"
                   then incr_fail (default zero (nc !! q))
                   else default zero (nc !! q))
         ∧ ∀ p, p ≠ q → nc' !! p = nc !! p.
Proof.
  intros H1 H2. unfold row_step. rewrite H1, H2. simpl.
  eexists. split; [reflexivity|].
  set (nc1 := match nc !! q with None => <[q:=zero]> nc | Some _ => nc end).
  assert (Hq : nc1 !! q = Some (default zero (nc !! q))).
  { subst nc1. destruct (nc !! q) eqn:E; [by rewrite E|by rewrite lookup_insert_eq]. }
  assert (Hp : ∀ p, p ≠ q → nc1 !! p = nc !! p).
  { intros p Hne. subst nc1. destruct (nc !! q); [done|]. by rewrite lookup_insert_ne. }
  destruct (String.eqb msg "Pass (Label)"); [|destruct (String.eqb msg "Fail (Label)")].
  - split; [by rewrite lookup_alter_eq, Hq|].
    intros p Hne. rewrite lookup_alter_ne by done. by apply Hp.
  - split; [by rewrite lookup_alter_eq, Hq|].
    intros p Hne. rewrite lookup_alter_ne by done. by apply Hp.
  - by split.
Qed.

(** Whether a row can be stepped over does not depend on [new_counts]. *)
Lemma row_step_success nc nc' r : is_Some (row_step nc r) → is_Some (row_step nc' r).
Proof.
  unfold row_step.
  destruct (get_strip r "Failure Message" "") as [msg|]; simpl; [|by intros [? [=]]].
  destruct (get_strip r "Printer Name" "Printer_1") as [q|]; simpl; [|by intros [? [=]]].
  eauto.
Qed.

Lemma scan_rows_success (rows : list row) : ∀ nc nc',
  is_Some (scan_rows nc rows) → is_Some (scan_rows nc' rows).
Proof.
  induction rows as [|r rows IH]; intros nc nc'; simpl; [eauto|].
  destruct (row_step nc r) as [nc1|] eqn:E; simpl; [|by intros [? [=]]].
  destruct (row_step_success nc nc' r) as [nc2 ->]; [by rewrite E|]. simpl.
  apply IH.
Qed.

Lemma scan_rows_app (l1 l2 : list row) : ∀ nc,
  scan_rows nc (l1 ++ l2) = scan_rows nc l1 ≫= fun nc1 => scan_rows nc1 l2.
Proof.
  induction l1 as [|r l1 IH]; intros nc; simpl; [done|].
  destruct (row_step nc r); simpl; [apply IH|done].
Qed.

Lemma scan_rows_without (before after : list row) r nc :
  is_Some (scan_rows nc (before ++ r :: after)) →
  is_Some (scan_rows nc (before ++ after)).
Proof.
  rewrite !scan_rows_app.
  destruct (scan_rows nc before) as [nc1|]; simpl; [|done].
  destruct (row_step nc1 r) as [nc2|]; simpl; [|by intros [? [=]]].
  apply scan_rows_success.
Qed.

Lemma option_counts_eq (x y : option Counts) :
  (is_Some x ↔ is_Some y) → default zero x = default zero y → x = y.
Proof.
  intros Hs Hd. destruct x as [a|], y as [b|]; simpl in *; try congruence.
  - destruct (proj1 Hs) as [? [=]]. eauto.
  - destruct (proj2 Hs) as [? [=]]. eauto.
Qed.

(** A row of a batch, against the same batch without it: the two calls,
    and the two batches [new_counts] they add. *)
Lemma row_in_batch m path (old before after : list row) r msg q :
  cursor m path = length old →
  get_strip r "Failure Message" "" = Some msg →
  get_strip r "Printer Name" "Printer_1" = Some q →
  snd (process_csv m path (ReadOk (old ++ before ++ r :: after))) ≠ Raised →
  ∃ ncw nco,
    process_csv m path (ReadOk (old ++ before ++ r :: after))
    = (mk (<[path := length (old ++ before ++ r :: after)]> (file_row_counts m))
          (accumulate (cumulative_counts m) ncw),
       Emitted (accumulate (cumulative_counts m) ncw))
    ∧ fst (process_csv m path (ReadOk (old ++ before ++ after)))
      = mk (<[path := length (old ++ before ++ after)]> (file_row_counts m))
           (accumulate (cumulative_counts m) nco)
    ∧ snd (process_csv m path (ReadOk (old ++ before ++ after))) ≠ Raised
    ∧ is_Some (ncw !! q)
    ∧ default zero (ncw !! q)
      = add_counts (default zero (nco !! q)) (tally [r] q)
    ∧ ∀ p, p ≠ q → ncw !! p = nco !! p.
Proof.
  intros Hc H1 H2. rewrite !process_csv_rows, Hc, !drop_app_length.
  destruct (scan_rows ∅ (before ++ r :: after)) as [ncw|] eqn:Ew; [|done].
  intros _.
  destruct (scan_rows_without before after r ∅) as [nco Eo]; [by rewrite Ew|].
  rewrite Eo. exists ncw, nco.
  assert (Hpr : printer_of r = Some q) by done.
  assert (Hin : is_Some (ncw !! q)).
  { apply (scan_rows_dom _ _ _ Ew q). right. apply Exists_app. right.
    by apply Exists_cons_hd. }
  assert (Ht : ∀ p, tally (before ++ r :: after) p
                    = add_counts (tally (before ++ after) p) (tally [r] p)).
  { intros p. rewrite !tally_app, (tally_cons r after), !add_counts_assoc.
    f_equal. apply counts_eq; simpl; lia. }
  assert (Hd : ∀ p, default zero (ncw !! p)
                    = add_counts (default zero (nco !! p)) (tally [r] p)).
  { intros p. rewrite (scan_rows_counts _ _ _ p Ew), (scan_rows_counts _ _ _ p Eo).
    rewrite lookup_empty. simpl. by rewrite !add_counts_zero_l, Ht. }
  split; [|split; [done|split; [by destruct (decide _)|split; [done|split; [done|]]]]].
  - rewrite decide_False; [done|]. intros ->. rewrite lookup_empty in Hin.
    by destruct Hin as [? [=]].
  - intros p Hne. apply option_counts_eq.
    + rewrite (scan_rows_dom _ _ _ Ew p), (scan_rows_dom _ _ _ Eo p).
      rewrite !Exists_app, Exists_cons, Hpr. naive_solver.
    + rewrite Hd, tally_one, (event_of_fields r msg q H1 H2).
      destruct (classify msg) as [[]|]; simpl;
        rewrite ?decide_False by done; apply add_counts_zero_r.
Qed.

(** The counters of the row's printer and of the others, with the row
    and without it. *)
Lemma row_in_batch_counters m path (old before after : list row) r msg q :
  cursor m path = length old →
  get_strip r "Failure Message" "" = Some msg →
  get_strip r "Printer Name" "Printer_1" = Some q →
  snd (process_csv m path (ReadOk (old ++ before ++ r :: after))) ≠ Raised →
  snd (process_csv m path (ReadOk (old ++ before ++ after))) ≠ Raised
  ∧ cursor (fst (process_csv m path (ReadOk (old ++ before ++ r :: after)))) path
    = length (old ++ before ++ r :: after)
  ∧ counters (fst (process_csv m path (ReadOk (old ++ before ++ r :: after)))) q
    = (if String.eqb msg "Pass (Label)"
       then incr_pass
              (counters (fst (process_csv m path (ReadOk (old ++ before ++ after)))) q)
       else if String.eqb msg "Fail (Label)"
       then incr_fail
              (counters (fst (process_csv m path (ReadOk (old ++ before ++ after)))) q)
       else counters (fst (process_csv m path (ReadOk (old ++ before ++ after)))) q)
  ∧ ∀ p, p ≠ q →
         counters (fst (process_csv m path (ReadOk (old ++ before ++ r :: after)))) p
         = counters (fst (process_csv m path (ReadOk (old ++ before ++ after)))) p.
Proof.
  intros Hc H1 H2 Hok.
  destruct (row_in_batch m path old before after r msg q Hc H1 H2 Hok)
    as (ncw & nco & Ew & Eo & Hno & Hin & Hd & Hp).
  rewrite Ew, Eo. cbn [fst]. split; [done|]. split; [|split].
  - unfold cursor. cbn [file_row_counts]. by rewrite lookup_insert_eq.
  - unfold counters. cbn [cumulative_counts]. rewrite !accumulate_counts, Hd.
    rewrite tally_one, (event_of_fields r msg q H1 H2). unfold classify.
    destruct (String.eqb msg "Pass (Label)"); simpl.
    { rewrite decide_True by done. apply counts_eq; simpl; lia. }
    destruct (String.eqb msg "Fail (Label)"); simpl.
    { rewrite decide_True by done. apply counts_eq; simpl; lia. }
    by rewrite !add_counts_zero_r.
  - intros p Hne. unfold counters. cbn [cumulative_counts].
    by rewrite !accumulate_counts, (Hp p Hne).
Qed.

(** C7, amended.  The outcome of a row is its "Failure Message" field
    ("" when the record has no such key) with leading and trailing
    whitespace stripped, compared with "Pass (Label)" and "Fail (Label)".
    For every row whose two fields can be read: the step of the loop, on
    any [new_counts] (the printer in it already or not), adds 1 to the
    pass count of the row's printer in the first case, 1 to its fail
    count in the second, nothing in any other case, and leaves every
    other printer alone.  And wherever the row stands among the new rows
    of a pass that does not raise, the pass without the row does not
    raise either, the cursor passes the row, and the cumulative counters
    after the pass are those of the pass without the row with that one
    increment made, for the row's printer and for no other. *)
Theorem row_classified_by_stripped_failure_message
    m path (old before after : list row) r msg q :
  cursor m path = length old →
  get_strip r "Failure Message" "" = Some msg →
  get_strip r "Printer Name" "Printer_1" = Some q →
  (∀ nc, ∃ nc',
      row_step nc r = Some nc'
      ∧ nc' !! q
        = Some (if String.eqb msg "Pass (Label)"
                then incr_pass (default zero (nc !! q))
                else if String.eqb msg "Fail (Label)"
                then incr_fail (default zero (nc !! q))
                else default zero (nc !! q))
      ∧ ∀ p, p ≠ q → nc' !! p = nc !! p)
  ∧ (snd (process_csv m path (ReadOk (old ++ before ++ r :: after))) ≠ Raised →
     snd (process_csv m path (ReadOk (old ++ before ++ after))) ≠ Raised
     ∧ cursor (fst (process_csv m path (ReadOk (old ++ before ++ r :: after)))) path
       = length (old ++ before ++ r :: after)
     ∧ counters (fst (process_csv m path (ReadOk (old ++ before ++ r :: after)))) q
       = (if String.eqb msg "Pass (Label)"
          then incr_pass
                 (counters (fst (process_csv m path (ReadOk (old ++ before ++ after)))) q)
          else if String.eqb msg "Fail (Label)"
          then incr_fail
                 (counters (fst (process_csv m path (ReadOk (old ++ before ++ after)))) q)
          else counters (fst (process_csv m path (ReadOk (old ++ before ++ after)))) q)
     ∧ ∀ p, p ≠ q →
            counters (fst (process_csv m path (ReadOk (old ++ before ++ r :: after)))) p
            = counters (fst (process_csv m path (ReadOk (old ++ before ++ after)))) p).
Proof.
  intros Hc H1 H2. split.
  - intros nc. by apply row_step_effect.
  - by apply row_in_batch_counters.
Qed.

(** A padded pass of P1 between a pass and a fail of P1, after three rows
    were consumed: the cursor is 6 and P1 has one pass more than without
    the padded row. *)
Lemma row_classified_by_stripped_failure_message_witness :
  cursor (fst (process_csv after3 "log.csv"
                 (ReadOk (log3 ++ [pass_row] ++ padded_row :: [fail_row]))))
         "log.csv" = 6%nat
  ∧ counters (fst (process_csv after3 "log.csv"
                     (ReadOk (log3 ++ [pass_row] ++ padded_row :: [fail_row]))))
             "P1" = mkCounts 4 2.
Proof.
  destruct (row_classified_by_stripped_failure_message
              after3 "log.csv" log3 [pass_row] [fail_row] padded_row
              "Pass (Label)" "P1") as (_ & H); [reflexivity..|].
  destruct H as (_ & Hc & Hq & _); [vm_compute; discriminate|].
  split; [exact Hc|]. rewrite Hq. reflexivity.
Defined.

(** *** C8: the cursor after a successful pass *)

(** C8.  After a call of [process_csv] that did not raise, the cursor of
    the file is the number of rows of the file, whatever the new rows
    classified as: a printer none of whose events is among the new rows
    keeps its counters, and a further call on the same content reads no
    row and changes nothing. *)
Theorem cursor_reaches_total_rows m path rows m' o :
  process_csv m path (ReadOk rows) = (m', o) →
  o ≠ Raised →
  cursor m' path = length rows
  ∧ (∀ p, tally (drop (cursor m path) rows) p = zero →
          counters m' p = counters m p)
  ∧ process_csv m' path (ReadOk rows) = (m', Quiet).
Proof.
  intros E Ho. destruct (process_csv_ok _ _ _ _ _ E Ho) as [Hf Hc].
  assert (Hl : file_row_counts m' !! path = Some (length rows))
    by (by rewrite Hf, lookup_insert_eq).
  split; [|split].
  - unfold cursor. by rewrite Hl.
  - intros p Hp. by rewrite Hc, Hp, add_counts_zero_r.
  - by apply process_csv_no_new_rows.
Qed.

(** A file of three rows none of which classifies: the cursor is 3 and P1
    has no pass and no fail. *)
Lemma cursor_reaches_total_rows_witness :
  cursor (fst (process_csv init "log.csv" (ReadOk junk))) "log.csv" = 3%nat
  ∧ counters (fst (process_csv init "log.csv" (ReadOk junk))) "P1" = zero.
Proof.
  destruct (cursor_reaches_total_rows init "log.csv" junk
              (fst (process_csv init "log.csv" (ReadOk junk)))
              (snd (process_csv init "log.csv" (ReadOk junk))))
    as (Hc & Hz & _).
  - reflexivity.
  - vm_compute. discriminate.
  - split; [exact Hc|]. rewrite Hz; reflexivity.
Defined.

(** Rows whose two fields are strings or absent never make the call
    raise, so the cursor always passes them. *)
Lemma readable_rows_are_consumed m path rows :
  Forall readable rows →
  cursor (fst (process_csv m path (ReadOk rows))) path = length rows.
Proof.
  intros H. pose proof (process_csv_readable m path rows H) as Ho.
  destruct (process_csv m path (ReadOk rows)) as [m' o] eqn:E.
  destruct (process_csv_ok _ _ _ _ _ E Ho) as [Hf _]. simpl.
  unfold cursor. by rewrite Hf, lookup_insert_eq.
Qed.

(** *** C9: a failed pass *)

Lemma fails_raised m path f : fails m path f ↔ snd (process_csv m path f) = Raised.
Proof.
  destruct f as [|rows]; [done|]. unfold fails.
  rewrite process_csv_rows.
  destruct (scan_rows ∅ (drop (cursor m path) rows)); simpl; [|done].
  split; [done|]. case_decide; discriminate.
Qed.

(** C9.  When the file cannot be read, or a row beyond the cursor cannot,
    [process_csv] ends in its [except] branch: the cursor of every file is
    what it was (for a file not seen before it is the initial 0), no
    printer counter has changed, and any later call behaves as it would
    have on the state before the failed one. *)
Theorem failed_pass_changes_nothing m path f :
  fails m path f →
  snd (process_csv m path f) = Raised
  ∧ (∀ q, cursor (fst (process_csv m path f)) q = cursor m q)
  ∧ cumulative_counts (fst (process_csv m path f)) = cumulative_counts m
  ∧ (file_row_counts m !! path ≠ None → fst (process_csv m path f) = m)
  ∧ ∀ f', process_csv (fst (process_csv m path f)) path f' = process_csv m path f'.
Proof.
  intros H. apply fails_raised in H.
  destruct (process_csv m path f) as [m' o] eqn:E. simpl in H. subst o.
  apply process_csv_raised in E. subst m'. simpl fst.
  assert (Hseen : seen (mk (seen m path) (cumulative_counts m)) path = seen m path).
  { unfold seen at 1. simpl. unfold seen.
    destruct (file_row_counts m !! path) eqn:E; [by rewrite E|].
    by rewrite lookup_insert_eq. }
  repeat split.
  - intros q. unfold cursor at 1. simpl. apply seen_lookup.
  - intros Hp. unfold seen. destruct (file_row_counts m !! path); [|done].
    by destruct m.
  - intros f'. unfold process_csv. by rewrite Hseen.
Qed.

(** A read error after three rows were consumed: cursor 3 and the
    counters of P1 are kept. *)
Lemma failed_pass_changes_nothing_witness :
  snd (process_csv after3 "log.csv" ReadError) = Raised
  ∧ cursor (fst (process_csv after3 "log.csv" ReadError)) "log.csv" = 3%nat
  ∧ fst (process_csv after3 "log.csv" ReadError) = after3.
Proof.
  destruct (failed_pass_changes_nothing after3 "log.csv" ReadError)
    as (Hr & Hc & _ & Hm & _).
  - exact I.
  - split; [exact Hr|]. split; [rewrite Hc; reflexivity|].
    apply Hm. vm_compute. discriminate.
Defined.

(** *** C10: the printer of a row *)

(** C10.  A row whose "Printer Name" field is present and blank (empty or
    whitespace only) is attributed to the printer "", and the same record
    without the "Printer Name" key to "Printer_1".  The step of the loop,
    on any [new_counts], makes or keeps the entry "" and counts the row's
    event there, and leaves the entry "Printer_1" as it is.  And wherever
    the row stands among the new rows of a pass that does not raise, the
    cumulative counts have an entry "" after the pass, its counters are
    those of the pass without the row with the row's event added, and the
    entry "Printer_1" is what it is after the pass without the row. *)
Theorem blank_printer_name_is_empty_key
    m path (old before after : list row) r s msg :
  cursor m path = length old →
  r !! "Printer Name" = Some (Some s) →
  blank s = true →
  get_strip r "Failure Message" "" = Some msg →
  get_strip r "Printer Name" "Printer_1" = Some ""
  ∧ get_strip (delete "Printer Name" r) "Printer Name" "Printer_1"
    = Some "Printer_1"
  ∧ (∀ nc, ∃ nc',
        row_step nc r = Some nc'
        ∧ nc' !! ""
          = Some (if String.eqb msg "Pass (Label)"
                  then incr_pass (default zero (nc !! ""))
                  else if String.eqb msg "Fail (Label)"
                  then incr_fail (default zero (nc !! ""))
                  else default zero (nc !! ""))
        ∧ nc' !! "Printer_1" = nc !! "Printer_1")
  ∧ (snd (process_csv m path (ReadOk (old ++ before ++ r :: after))) ≠ Raised →
     is_Some (cumulative_counts
                (fst (process_csv m path (ReadOk (old ++ before ++ r :: after))))
              !! "")
     ∧ counters (fst (process_csv m path (ReadOk (old ++ before ++ r :: after)))) ""
       = (if String.eqb msg "Pass (Label)"
          then incr_pass
                 (counters (fst (process_csv m path (ReadOk (old ++ before ++ after)))) "")
          else if String.eqb msg "Fail (Label)"
          then incr_fail
                 (counters (fst (process_csv m path (ReadOk (old ++ before ++ after)))) "")
          else counters (fst (process_csv m path (ReadOk (old ++ before ++ after)))) "")
     ∧ cumulative_counts
         (fst (process_csv m path (ReadOk (old ++ before ++ r :: after))))
       !! "Printer_1"
       = cumulative_counts
           (fst (process_csv m path (ReadOk (old ++ before ++ after))))
         !! "Printer_1").
Proof.
  intros Hc Hs Hb H1.
  assert (H2 : get_strip r "Printer Name" "Printer_1" = Some "").
  { unfold get_strip. by rewrite Hs, (strip_blank s Hb). }
  split; [exact H2|]. split.
  { unfold get_strip. by rewrite lookup_delete_eq. }
  split.
  { intros nc. destruct (row_step_effect nc r msg "" H1 H2) as (nc' & E & Hq & Hp).
    exists nc'. split; [done|]. split; [done|]. by apply Hp. }
  intros Hok.
  destruct (row_in_batch_counters m path old before after r msg "" Hc H1 H2 Hok)
    as (_ & _ & Hcnt & _).
  destruct (row_in_batch m path old before after r msg "" Hc H1 H2 Hok)
    as (ncw & nco & Ew & Eo & _ & [c Hin] & _ & Hp).
  split; [|split; [exact Hcnt|]].
  - rewrite Ew. cbn [fst cumulative_counts]. rewrite accumulate_lookup, Hin. eauto.
  - rewrite Ew, Eo. cbn [fst cumulative_counts].
    by rewrite !accumulate_lookup, (Hp "Printer_1").
Qed.

(** A row with a blank printer between a row of P1 and a record without
    the "Printer Name" column: "" has one pass, "Printer_1" is what the
    other rows make it. *)
Lemma blank_printer_name_is_empty_key_witness :
  counters (fst (process_csv after3 "log.csv"
                   (ReadOk (log3 ++ [pass_row] ++ blank_printer_row :: [∅]))))
           "" = mkCounts 1 0
  ∧ cumulative_counts
      (fst (process_csv after3 "log.csv"
              (ReadOk (log3 ++ [pass_row] ++ blank_printer_row :: [∅]))))
    !! "Printer_1" = Some zero.
Proof.
  destruct (blank_printer_name_is_empty_key
              after3 "log.csv" log3 [pass_row] [∅] blank_printer_row "   "
              "Pass (Label)")
    as (_ & _ & _ & H); [reflexivity..|].
  destruct H as (_ & Hq & Hp); [vm_compute; discriminate|].
  split; [rewrite Hq|rewrite Hp]; reflexivity.
Defined.

End MonitorClaims.

(* ===================================================================== *)
(** ** Properties of a roll *)
(* ===================================================================== *)

Module RollFacts.
Import Roll.

Lemma update_progress_not_running r c :
  state r ≠ running → update_progress r c = Some r.
Proof. intros H. unfold update_progress. by rewrite decide_True. Qed.

Lemma update_progress_capture r c :
  state r = running → baseline_pass r = None →
  update_progress r c
  = Some (set_baseline (Some (get0 c "pass")) (Some (get0 c "fail")) r).
Proof.
  intros Hs Hb. unfold update_progress.
  rewrite decide_False by (intros H; by apply H). by rewrite Hb.
Qed.

Lemma update_progress_advance r c bp bf :
  state r = running → baseline_pass r = Some bp → baseline_fail r = Some bf →
  update_progress r c
  = Some (let r1 := set_current_progress
                      (Z.min (get0 c "pass" - bp) (labels_goal r)) r in
          if decide (labels_goal r ≤ Z.min (get0 c "pass" - bp) (labels_goal r))%Z
          then set_buttons false false false
                 (log_roll_action "completed" "Roll complete"
                    (set_state completed r1))
          else r1).
Proof.
  intros Hs Hp Hf. unfold update_progress.
  rewrite decide_False by (intros H; by apply H). by rewrite Hp, Hf.
Qed.

Lemma update_all_not_running r cs :
  state r ≠ running → update_all r cs = Some r.
Proof.
  intros H. induction cs as [|c cs IH]; simpl; [done|].
  by rewrite (update_progress_not_running r c H).
Qed.

Lemma on_screen_init j n g p : on_screen (init j n g p).
Proof. unfold on_screen; simpl. naive_solver. Qed.

Lemma on_screen_step r e r' : on_screen r → step r e = Some r' → on_screen r'.
Proof.
  intros Hinv Hstep. destruct e as [| |yes|c]; simpl in Hstep.
  - injection Hstep as <-. unfold click_start, start_roll.
    destruct (start_btn r) eqn:Eb; [|exact Hinv].
    destruct (decide (state r ≠ running)); [|exact Hinv].
    destruct Hinv as (H1 & H2 & H3). unfold on_screen; simpl. naive_solver.
  - injection Hstep as <-. unfold click_pause, toggle_pause.
    destruct (pause_btn r) eqn:Eb; [|exact Hinv].
    destruct (decide (state r = running)) as [E|E].
    { destruct Hinv as (H1 & H2 & H3). unfold on_screen; simpl.
      rewrite E in *. naive_solver. }
    destruct (decide (state r = paused)) as [E'|E']; [|exact Hinv].
    destruct Hinv as (H1 & H2 & H3). unfold on_screen; simpl.
    rewrite E' in *. naive_solver.
  - injection Hstep as <-. unfold confirm_stop, stop_roll.
    destruct (stop_btn r) eqn:Eb; [|exact Hinv]. destruct yes; [|exact Hinv].
    destruct (decide (state r = running ∨ state r = paused)) as [E|E];
      [|exact Hinv].
    destruct Hinv as (H1 & H2 & H3). unfold on_screen; simpl. naive_solver.
  - unfold update_progress in Hstep.
    destruct (decide (state r ≠ running)) as [E|E];
      [injection Hstep as <-; exact Hinv|].
    destruct (decide (state r = running)) as [Hr|Hr]; [|by destruct E].
    destruct Hinv as (H1 & H2 & H3).
    destruct (baseline_pass r) as [bp|] eqn:Ep.
    + destruct (baseline_fail r) as [bf|] eqn:Ef; simpl in Hstep; [|done].
      injection Hstep as <-.
      destruct (decide _); unfold on_screen; simpl; rewrite ?Hr, ?Ep, ?Ef in *;
        naive_solver.
    + injection Hstep as <-. unfold on_screen; simpl. rewrite Hr in *.
      naive_solver.
Qed.

Lemma reachable_on_screen r : reachable r → on_screen r.
Proof.
  induction 1 as [j n g p|r e r' _ IH Hstep].
  - apply on_screen_init.
  - by apply (on_screen_step r e r').
Qed.

(** The baselines are set together, so [update_progress] never raises on
    a roll that is on screen. *)
Lemma baselines_paired r c : reachable r → is_Some (update_progress r c).
Proof.
  intros H. destruct (reachable_on_screen r H) as (_ & _ & H3).
  unfold update_progress. destruct (decide _); [eauto|].
  destruct (baseline_pass r) eqn:Ep; [|eauto].
  destruct (baseline_fail r) eqn:Ef; simpl; [eauto|].
  destruct H3 as [_ H3]. by specialize (H3 eq_refl).
Qed.

(** Every event leaves a stopped or completed roll on screen as it is. *)
Lemma terminal_on_screen r e :
  on_screen r → state r = stopped ∨ state r = completed → step r e = Some r.
Proof.
  intros (_ & H2 & _) Hs. destruct (H2 Hs) as (Ha & Hb & Hc).
  destruct e as [| |yes|c]; simpl.
  - unfold click_start. by rewrite Ha.
  - unfold click_pause. by rewrite Hb.
  - unfold confirm_stop. by rewrite Hc.
  - apply update_progress_not_running. by destruct Hs as [-> | ->].
Qed.

End RollFacts.

(* ===================================================================== *)
(** ** The claims on rolls and jobs *)
(* ===================================================================== *)

Module RollClaims.
Import Roll Samples RollFacts.

(** *** C2: updates outside Running, and the baseline *)

(** C2, as stated, fails for a roll that enters Running by a resume.
    Roll 1 is started, captures its baseline at 2 passes, is paused and
    resumed: the first update after it entered Running again, at 50
    passes, advances the progress to 48. *)
Lemma resumed_roll_update_advances :
  update_progress (start_roll roll1) (snapshot 2 0) = Some roll1_based
  ∧ state roll1_paused = paused
  ∧ state roll1_resumed = running
  ∧ current_progress roll1_resumed = 0%Z
  ∧ current_progress <$> update_progress roll1_resumed (snapshot 50 0)
    = Some 48%Z.
Proof. by vm_compute. Qed.

(** C2, amended.  [update_progress] returns the roll as it is when the
    roll is not Running.  The first call after a start ([start_roll],
    which clears the baseline), and any call on a Running roll without
    baseline, stores the pass and fail values of the snapshot as the
    baseline and changes nothing else: progress and state are kept.  (A
    resume keeps the baseline captured before the pause, and the next
    update advances from it.) *)
Theorem update_progress_noop_and_capture r c :
  (state r ≠ running → update_progress r c = Some r)
  ∧ (state r ≠ running →
     update_progress (start_roll r) c
     = Some (set_baseline (Some (get0 c "pass")) (Some (get0 c "fail"))
               (start_roll r))
     ∧ state (start_roll r) = running
     ∧ current_progress (start_roll r) = current_progress r)
  ∧ (state r = running → baseline_pass r = None →
     update_progress r c
     = Some (set_baseline (Some (get0 c "pass")) (Some (get0 c "fail")) r))
  ∧ (∀ bp bf,
       state r = paused → baseline_pass r = Some bp → baseline_fail r = Some bf →
       state (toggle_pause r) = running
       ∧ ∃ r', update_progress (toggle_pause r) c = Some r'
               ∧ current_progress r'
                 = Z.min (get0 c "pass" - bp) (labels_goal r)
               ∧ baseline_pass r' = Some bp).
Proof.
  split; [apply update_progress_not_running|]. split; [|split].
  - intros H.
    assert (E : start_roll r
                = log_roll_action "start" ""
                    (set_buttons false (pause_btn r) (stop_btn r)
                       (set_baseline None None (set_state running r))))
      by (unfold start_roll; by rewrite decide_True).
    split; [|by rewrite E]. apply update_progress_capture; by rewrite E.
  - apply update_progress_capture.
  - intros bp bf Hs Hp Hf.
    assert (E : toggle_pause r = log_roll_action "resume" "" (set_state running r)).
    { unfold toggle_pause. rewrite decide_False by (rewrite Hs; discriminate).
      by rewrite decide_True. }
    split; [by rewrite E|]. eexists. split.
    + apply (update_progress_advance _ c bp bf); by rewrite E.
    + rewrite E. simpl. by destruct (decide _).
Qed.

(** Scenario E, and the start of scenario D. *)
Lemma update_progress_noop_and_capture_witness :
  update_progress roll1_paused (snapshot 50 0) = Some roll1_paused
  ∧ update_progress (start_roll roll1) (snapshot 2 0) = Some roll1_based.
Proof.
  destruct (update_progress_noop_and_capture roll1_paused (snapshot 50 0))
    as (H1 & _).
  destruct (update_progress_noop_and_capture roll1 (snapshot 2 0))
    as (_ & H2 & _ & _).
  split.
  - apply H1. vm_compute. discriminate.
  - destruct H2 as (H2 & _); [vm_compute; discriminate|]. exact H2.
Defined.

(** *** C3: progress and completion *)

(** C3.  On a Running roll with its baseline captured, [update_progress]
    sets the progress to the minimum of the passes since the baseline and
    the goal; the roll becomes Completed exactly when the passes since the
    baseline reach the goal, and stays Running otherwise; once Completed,
    further updates leave the roll, its progress included, as it is. *)
Theorem update_progress_completion r c bp bf :
  state r = running →
  baseline_pass r = Some bp →
  baseline_fail r = Some bf →
  ∃ r', update_progress r c = Some r'
        ∧ current_progress r' = Z.min (get0 c "pass" - bp) (labels_goal r)
        ∧ (state r' = completed ↔ (labels_goal r ≤ get0 c "pass" - bp)%Z)
        ∧ (state r' = running ↔ (get0 c "pass" - bp < labels_goal r)%Z)
        ∧ (state r' = completed → ∀ cs, update_all r' cs = Some r').
Proof.
  intros Hs Hp Hf. eexists. split; [by apply (update_progress_advance r c bp bf)|].
  simpl. destruct (decide _) as [Hle|Hgt]; simpl.
  - split; [done|]. split; [split; [intros _; lia|done]|].
    split; [split; [discriminate|intros; exfalso; lia]|].
    intros _ cs. by apply update_all_not_running.
  - rewrite Hs. split; [done|].
    split; [split; [discriminate|intros; exfalso; lia]|].
    split; [split; [intros _; lia|done]|]. discriminate.
Qed.

Lemma update_progress_completion_witness :
  ∃ r', update_progress roll1_based (snapshot 102 0) = Some r'
        ∧ current_progress r' = 100%Z ∧ state r' = completed.
Proof.
  destruct (update_progress_completion roll1_based (snapshot 102 0) 2 0)
    as (r' & Hu & Hc & Hs & _); [reflexivity..|].
  exists r'. split; [exact Hu|]. split; [rewrite Hc; reflexivity|].
  apply Hs. vm_compute. discriminate.
Defined.

(** *** C5: start *)

(** C5, as stated, fails: [start_roll] on a stopped roll makes it Running
    again, and on a paused roll it clears the baseline. *)
Lemma start_roll_restarts_stopped_roll :
  state roll1_stopped = stopped
  ∧ state (start_roll roll1_stopped) = running
  ∧ state roll1_paused = paused
  ∧ baseline_pass roll1_paused = Some 2%Z
  ∧ state (start_roll roll1_paused) = running
  ∧ baseline_pass (start_roll roll1_paused) = None.
Proof. by vm_compute. Qed.

(** C5, amended.  [start_roll] acts in every state other than Running:
    the roll becomes Running, both baselines become null, a "start"
    action is recorded and the Start button is disabled; on a Running
    roll it changes nothing.  The Start button, once disabled, is never
    enabled again, so for a roll on screen a click on Start acts in state
    Idle only, and no event changes a Stopped or Completed roll. *)
Theorem start_roll_acts_unless_running r :
  (state r ≠ running →
     state (start_roll r) = running
     ∧ baseline_pass (start_roll r) = None
     ∧ baseline_fail (start_roll r) = None
     ∧ start_btn (start_roll r) = false
     ∧ actions (start_roll r) = (actions r ++ [("start", "")])%list
     ∧ current_progress (start_roll r) = current_progress r)
  ∧ (state r = running → start_roll r = r)
  ∧ (reachable r → state r = idle → click_start r = start_roll r)
  ∧ (reachable r → state r ≠ idle → click_start r = r)
  ∧ (reachable r → state r = stopped ∨ state r = completed →
     ∀ e, step r e = Some r).
Proof.
  split; [|split; [|split; [|split]]].
  - intros H. unfold start_roll. rewrite decide_True by done. by repeat split.
  - intros H. unfold start_roll. rewrite decide_False; [done|]. by intros ?.
  - intros Hr Hs. destruct (reachable_on_screen r Hr) as ([_ H1] & _).
    unfold click_start. by rewrite (H1 Hs).
  - intros Hr Hs. destruct (reachable_on_screen r Hr) as ([H1 _] & _).
    unfold click_start. destruct (start_btn r); [|done]. by destruct Hs; apply H1.
  - intros Hr Hs e. apply terminal_on_screen; [by apply reachable_on_screen|done].
Qed.

Lemma roll1_stopped_reachable : reachable roll1_stopped.
Proof.
  apply (reach_step (start_roll roll1) (ClickStop true)); [|reflexivity].
  apply (reach_step roll1 ClickStart); [|reflexivity].
  apply reach_init.
Qed.

Lemma start_roll_acts_unless_running_witness :
  state (start_roll roll1) = running
  ∧ click_start roll1_stopped = roll1_stopped.
Proof.
  destruct (start_roll_acts_unless_running roll1) as (H1 & _).
  destruct (start_roll_acts_unless_running roll1_stopped) as (_ & _ & _ & H2 & _).
  split.
  - apply H1. vm_compute. discriminate.
  - apply H2; [exact roll1_stopped_reachable|vm_compute; discriminate].
Defined.

End RollClaims.

Module JobClaims.
Import Samples.

Lemma ceil_div_bounds a b n :
  (0 < b)%Z → Job.ceil_div a b = Some n → ((n - 1) * b < a ≤ n * b)%Z.
Proof.
  intros Hb. unfold Job.ceil_div. rewrite decide_False by lia. intros [= <-].
  pose proof (Z.div_mod (- a) b ltac:(lia)) as Hd.
  pose proof (Z.mod_pos_bound (- a) b Hb) as Hm. nia.
Qed.

Lemma init_ui_rolls job n :
  Job.total_rolls job = Some n →
  ∃ rolls, Job.init_ui job = Some rolls
           ∧ Roll.roll_number <$> rolls = seqZ 1 n
           ∧ Forall (fun r => r = Roll.init (Job.id job) (Roll.roll_number r)
                                    (Job.labels_per_roll job)
                                    (Job.printer_name job)) rolls.
Proof.
  intros H. unfold Job.init_ui. rewrite H. simpl. eexists.
  split; [reflexivity|]. split.
  - rewrite <- list_fmap_compose. apply list_eq. intros i.
    rewrite list_lookup_fmap. by destruct (seqZ 1 n !! i).
  - apply Forall_fmap, Forall_forall. by intros x _.
Qed.

(** Rounding moves a quotient to one of its two neighbours, and leaves an
    integer where it is. *)
Lemma round_half_even_bounds n d :
  (0 < d)%Z →
  (n / d ≤ Job.round_half_even n d ≤ n / d + 1)%Z
  ∧ ((n mod d = 0)%Z → Job.round_half_even n d = (n / d)%Z).
Proof.
  intros Hd. unfold Job.round_half_even. split.
  - repeat case_decide; try destruct (Z.even _); lia.
  - intros Hr. rewrite Hr. by rewrite decide_True by lia.
Qed.

Lemma ulp_exponent_small a b :
  (0 < a ≤ 100000)%Z → (0 < b)%Z → (-1074 ≤ Job.ulp_exponent a b ≤ -36)%Z.
Proof.
  intros Ha Hb. unfold Job.ulp_exponent.
  assert (Z.log2 a < 17)%Z by (apply Z.log2_lt_pow2; lia).
  pose proof (Z.log2_nonneg b).
  case_decide; lia.
Qed.

(** On the values of the forms the double-precision quotient of line 346
    has the ceiling of the exact one: the nearest double is within
    [2^-36] of the quotient, which is an integer or at least [1/10000]
    away from the integer below it. *)
Lemma math_ceil_true_div_exact a b :
  (0 ≤ a ≤ 100000)%Z → (0 < b ≤ 10000)%Z →
  Job.math_ceil_true_div a b = Job.ceil_div a b.
Proof.
  intros Ha Hb. unfold Job.ceil_div. rewrite decide_False by lia.
  unfold Job.math_ceil_true_div. rewrite decide_False by lia.
  destruct (decide (a = 0)%Z) as [->|Ha0]; [reflexivity|].
  rewrite (Z.abs_eq a), (Z.abs_eq b) by lia.
  pose proof (ulp_exponent_small a b ltac:(lia) ltac:(lia)) as He.
  rewrite decide_False by lia.
  rewrite decide_True by (rewrite !Z.sgn_pos; lia).
  rewrite decide_False by lia. f_equal. f_equal.
  unfold Job.mantissa.
  set (e := Job.ulp_exponent a b) in *.
  rewrite (Z.max_l 0 e), (Z.max_r 0 (- e)) by lia.
  rewrite Z.pow_0_r, Z.mul_1_r.
  set (P := (2 ^ (- e))%Z).
  assert (HP : (b ≤ P)%Z).
  { transitivity (2 ^ 36)%Z; [lia|]. apply Z.pow_le_mono_r; lia. }
  destruct (round_half_even_bounds (a * P) b ltac:(lia)) as [[Hlo Hhi] Hex].
  set (m := Job.round_half_even (a * P) b) in *.
  pose proof (Z.div_mod (a * P) b ltac:(lia)) as Hdm.
  pose proof (Z.mod_pos_bound (a * P) b ltac:(lia)) as Hr.
  pose proof (Z.div_mod (- a) b ltac:(lia)) as Hda.
  pose proof (Z.mod_pos_bound (- a) b ltac:(lia)) as Hra.
  set (n := (- (- a / b))%Z) in *.
  assert (Hn : ((n - 1) * b < a ≤ n * b)%Z) by (subst n; nia).
  assert (HX : ((n - 1) * P * b + b ≤ a * P ≤ n * P * b)%Z) by nia.
  assert (Hq : ((n - 1) * P < a * P / b)%Z).
  { apply (Z.mul_lt_mono_pos_l b); lia. }
  assert (Hm : ((n - 1) * P < m ≤ n * P)%Z).
  { split; [lia|].
    destruct (decide ((a * P) mod b = 0)%Z) as [E|E].
    - rewrite (Hex E). apply (Z.mul_le_mono_pos_l _ _ b); lia.
    - assert (a * P / b < n * P)%Z by (apply (Z.mul_lt_mono_pos_l b); lia). lia. }
  symmetry. apply Z.div_unique with (n * P - m)%Z; lia.
Qed.

(** Beyond [2^53] they part: line 346 gives one roll to a job of
    [10^17 + 1] labels at [10^17] per roll, the exact ceiling is 2; a
    quotient beyond the doubles raises, and one below them is 0. *)
Example math_ceil_true_div_samples :
  Job.math_ceil_true_div (10 ^ 17 + 1) (10 ^ 17) = Some 1%Z
  ∧ Job.ceil_div (10 ^ 17 + 1) (10 ^ 17) = Some 2%Z
  ∧ Job.math_ceil_true_div 250 100 = Some 3%Z
  ∧ Job.math_ceil_true_div 250 0 = None
  ∧ Job.math_ceil_true_div (10 ^ 400) 1 = None
  ∧ Job.math_ceil_true_div 1 (10 ^ 400) = Some 0%Z
  ∧ Job.math_ceil_true_div (-7) 2 = Some (-3)%Z.
Proof. by vm_compute. Qed.

(** *** C6: the rolls of a job *)

(** C6, as stated, fails: the three rolls of the job of 250 labels at 100
    per roll all have the goal 100; the last one is not given 50. *)
Lemma last_roll_goal_is_labels_per_roll :
  (fun rolls : list Roll.t => Roll.labels_goal <$> rolls) <$> Job.init_ui job250
    = Some [100; 100; 100]%Z
  ∧ (fun rolls : list Roll.t => Roll.labels_goal <$> rolls) <$> Job.init_ui job250
    ≠ Some [100; 100; 50]%Z.
Proof. split; [reflexivity|]. vm_compute. discriminate. Qed.

(** C6, amended.  For a job with values the spin boxes of the forms can
    hold (a quantity from 0 to 100000, at most 10000 labels per roll) and
    at least 1 label per roll, the double-precision computation of line
    346 gives the ceiling of the exact quotient, and the job gets
    [total_rolls = ceil(quantity / labels_per_roll)] rolls, numbered from
    1 to [total_rolls], each new and each with the goal
    [labels_per_roll].  For quantity 250 and 100 labels per roll these
    are three rolls, numbered 1, 2, 3, with goals 100, 100 and 100; roll
    1, started, takes its baseline at 2 passes, and at 102 passes has
    progress [min(100, 100) = 100] and is Completed. *)
Theorem job_rolls_and_scenario_D :
  (∀ job,
     (0 ≤ Job.quantity job ≤ 100000)%Z →
     (0 < Job.labels_per_roll job ≤ 10000)%Z →
     ∃ n rolls,
       Job.math_ceil_true_div (Job.quantity job) (Job.labels_per_roll job) = Some n
       ∧ Job.total_rolls job = Some n
       ∧ ((n - 1) * Job.labels_per_roll job < Job.quantity job
          ≤ n * Job.labels_per_roll job)%Z
       ∧ Job.init_ui job = Some rolls
       ∧ Roll.roll_number <$> rolls = seqZ 1 n
       ∧ Forall (fun r => r = Roll.init (Job.id job) (Roll.roll_number r)
                                (Job.labels_per_roll job)
                                (Job.printer_name job)) rolls)
  ∧ Job.total_rolls job250 = Some 3%Z
  ∧ Job.init_ui job250
    = Some [roll1; Roll.init 7 2 100 "P1"; Roll.init 7 3 100 "P1"]
  ∧ Job.update_rolls job250
      [Roll.start_roll roll1; Roll.init 7 2 100 "P1"; Roll.init 7 3 100 "P1"]
      {[ "P1" := snapshot 2 0 ]}
    = Some [roll1_based; Roll.init 7 2 100 "P1"; Roll.init 7 3 100 "P1"]
  ∧ Roll.current_progress roll1_based = 0%Z
  ∧ ∃ done1,
      Job.update_rolls job250
        [roll1_based; Roll.init 7 2 100 "P1"; Roll.init 7 3 100 "P1"]
        {[ "P1" := snapshot 102 0 ]}
      = Some [done1; Roll.init 7 2 100 "P1"; Roll.init 7 3 100 "P1"]
      ∧ Roll.current_progress done1 = 100%Z
      ∧ Roll.state done1 = Roll.completed.
Proof.
  split.
  - intros job Hq Hl.
    destruct (Job.total_rolls job) as [n|] eqn:E.
    + destruct (init_ui_rolls job n E) as (rolls & H1 & H2 & H3).
      exists n, rolls. split; [by rewrite math_ceil_true_div_exact|].
      split; [done|]. split; [|done].
      apply ceil_div_bounds; [lia|done].
    + unfold Job.total_rolls, Job.ceil_div in E.
      rewrite decide_False in E by lia. discriminate.
  - split; [reflexivity|]. split; [reflexivity|]. split; [reflexivity|].
    split; [reflexivity|]. eexists. split; [reflexivity|]. by split.
Qed.

Lemma job_rolls_and_scenario_D_witness :
  ∃ n rolls, Job.total_rolls job250 = Some n
             ∧ Job.init_ui job250 = Some rolls
             ∧ Roll.roll_number <$> rolls = seqZ 1 n.
Proof.
  destruct job_rolls_and_scenario_D as (H & _).
  assert (Hq : (0 ≤ Job.quantity job250 ≤ 100000)%Z) by (simpl; lia).
  assert (Hl : (0 < Job.labels_per_roll job250 ≤ 10000)%Z) by (simpl; lia).
  destruct (H job250 Hq Hl) as (n & rolls & _ & H1 & _ & H2 & H3 & _).
  by exists n, rolls.
Defined.

End JobClaims.

(* ===================================================================== *)
(** ** Further properties of the CSV monitor *)
(* ===================================================================== *)

Module MonitorMore.
Import PyStr Monitor Events Samples MonitorFacts MonitorRun.

Lemma seen_insert m path :
  seen m path = <[path := cursor m path]> (file_row_counts m).
Proof.
  unfold seen, cursor. destruct (file_row_counts m !! path) eqn:E; simpl; [|done].
  by rewrite insert_id.
Qed.

(** The state after a call, from [effect]. *)
Lemma process_csv_effect m path f :
  fst (process_csv m path f)
  = mk (<[path := fst (effect (cursor m path) f)]> (file_row_counts m))
       (accumulate (cumulative_counts m) (snd (effect (cursor m path) f))).
Proof.
  destruct f as [|rows].
  - simpl. by rewrite seen_insert, accumulate_empty.
  - rewrite process_csv_rows. unfold effect.
    destruct (scan_rows ∅ (drop (cursor m path) rows)); simpl; [done|].
    by rewrite seen_insert, accumulate_empty.
Qed.

Lemma add_counts_comm a b : add_counts a b = add_counts b a.
Proof. apply counts_eq; simpl; lia. Qed.

Lemma accumulate_comm cum a b :
  accumulate (accumulate cum a) b = accumulate (accumulate cum b) a.
Proof.
  apply map_eq. intros p. rewrite !accumulate_lookup.
  destruct (a !! p) as [x|], (b !! p) as [y|]; simpl; try done.
  f_equal. rewrite !add_counts_assoc. f_equal. apply add_counts_comm.
Qed.

Lemma tally_bounds (rows : list row) p :
  (0 ≤ pass (tally rows p))%Z ∧ (0 ≤ fail (tally rows p))%Z
  ∧ (pass (tally rows p) + fail (tally rows p) ≤ Z.of_nat (length rows))%Z.
Proof.
  induction rows as [|r rows IH]; [rewrite tally_nil; simpl; lia|].
  rewrite tally_cons, tally_one. simpl length.
  destruct (event_of r) as [[q []]|]; try case_decide; simpl in *; lia.
Qed.

(** The batch of a call holds the tally of the rows it read. *)
Lemma effect_batch last_count f p :
  default zero (snd (effect last_count f) !! p)
  = match f with
    | ReadError => zero
    | ReadOk rows =>
        match scan_rows ∅ (drop last_count rows) with
        | None => zero
        | Some _ => tally (drop last_count rows) p
        end
    end.
Proof.
  destruct f as [|rows]; simpl; [by rewrite lookup_empty|].
  destruct (scan_rows ∅ (drop last_count rows)) as [nc|] eqn:E; simpl.
  - rewrite (scan_rows_counts _ _ _ p E), lookup_empty. apply add_counts_zero_l.
  - by rewrite lookup_empty.
Qed.

Lemma counters_after m path f p :
  counters (fst (process_csv m path f)) p
  = add_counts (counters m p)
      (default zero (snd (effect (cursor m path) f) !! p)).
Proof.
  rewrite process_csv_effect. unfold counters. cbn [cumulative_counts].
  apply accumulate_counts.
Qed.

Lemma entries_after m path f p :
  cumulative_counts (fst (process_csv m path f)) !! p
  = match snd (effect (cursor m path) f) !! p with
    | Some n => Some (add_counts (counters m p) n)
    | None => cumulative_counts m !! p
    end.
Proof.
  rewrite process_csv_effect. cbn [cumulative_counts]. apply accumulate_lookup.
Qed.

(** X1.  Whatever a call of [process_csv] reads, no counter of any
    printer goes down and no printer loses its entry: for each printer
    the passes and the fails grow by amounts that are not negative and
    that together are at most the number of rows beyond the cursor. *)
Theorem counters_only_grow m path rows p :
  (pass (counters m p) ≤ pass (counters (fst (process_csv m path (ReadOk rows))) p))%Z
  ∧ (fail (counters m p) ≤ fail (counters (fst (process_csv m path (ReadOk rows))) p))%Z
  ∧ (pass (counters (fst (process_csv m path (ReadOk rows))) p)
     + fail (counters (fst (process_csv m path (ReadOk rows))) p)
     ≤ pass (counters m p) + fail (counters m p)
       + Z.of_nat (length rows - cursor m path))%Z
  ∧ (is_Some (cumulative_counts m !! p) →
     is_Some (cumulative_counts (fst (process_csv m path (ReadOk rows))) !! p)).
Proof.
  rewrite counters_after, effect_batch.
  assert (Hdom : is_Some (cumulative_counts m !! p) →
    is_Some (cumulative_counts (fst (process_csv m path (ReadOk rows))) !! p)).
  { intros [c Hc]. rewrite entries_after, Hc.
    destruct (snd (effect (cursor m path) (ReadOk rows)) !! p); eauto. }
  destruct (scan_rows ∅ (drop (cursor m path) rows)).
  - pose proof (tally_bounds (drop (cursor m path) rows) p) as (H1 & H2 & H3).
    rewrite length_drop in H3. simpl in H1, H2, H3 |- *. split; [lia|]. split; [lia|]. split; [lia|exact Hdom].
  - rewrite add_counts_zero_r. split; [lia|]. split; [lia|]. split; [lia|exact Hdom].
Qed.

(** X2.  Calls for two different files commute: the monitor ends in the
    same state whichever of the two is processed first, and a call for
    one file leaves the cursor entry of every other file as it was. *)
Theorem distinct_files_commute m a b fa fb :
  a ≠ b →
  fst (process_csv (fst (process_csv m a fa)) b fb)
  = fst (process_csv (fst (process_csv m b fb)) a fa)
  ∧ ∀ q, q ≠ a →
         file_row_counts (fst (process_csv m a fa)) !! q = file_row_counts m !! q.
Proof.
  intros Hab. split.
  - rewrite !process_csv_effect. unfold cursor. cbn [file_row_counts cumulative_counts].
    rewrite (lookup_insert_ne _ a b), (lookup_insert_ne _ b a) by done.
    f_equal; [by apply insert_insert_ne|apply accumulate_comm].
  - intros q Hq. rewrite process_csv_effect. simpl. by rewrite lookup_insert_ne.
Qed.

Lemma distinct_files_commute_witness :
  fst (process_csv (fst (process_csv init "a.csv" (ReadOk log3))) "b.csv" (ReadOk junk))
  = fst (process_csv (fst (process_csv init "b.csv" (ReadOk junk))) "a.csv" (ReadOk log3)).
Proof.
  destruct (distinct_files_commute init "a.csv" "b.csv" (ReadOk log3) (ReadOk junk))
    as [H _]; [discriminate|exact H].
Defined.

Lemma scan_rows_nil_iff (rows : list row) nc :
  scan_rows ∅ rows = Some nc → (nc = ∅ ↔ rows = []).
Proof.
  intros H. split.
  - intros ->. destruct rows as [|r rows]; [done|]. exfalso.
    simpl in H. destruct (row_step ∅ r) as [nc1|] eqn:E; simpl in H; [|done].
    destruct (row_step_dom _ _ _ E) as (q & _ & Hd).
    pose proof (proj2 (scan_rows_dom _ _ _ H q)) as Hq.
    rewrite lookup_empty in Hq. destruct Hq as [? [=]].
    left. apply Hd. by right.
  - intros ->. by injection H as <-.
Qed.

(** X3.  A call that does not raise sends [update_signal] exactly when
    the file has at least one row beyond the cursor, whether or not any
    of the new rows is a pass or a fail; the signal carries the whole
    table of cumulative counts as it is after the call. *)
Theorem signal_iff_new_rows m path rows :
  ¬ fails m path (ReadOk rows) →
  snd (process_csv m path (ReadOk rows))
  = if decide (length rows ≤ cursor m path)%nat then Quiet
    else Emitted (cumulative_counts (fst (process_csv m path (ReadOk rows)))).
Proof.
  unfold fails. rewrite process_csv_rows.
  destruct (scan_rows ∅ (drop (cursor m path) rows)) as [nc|] eqn:E; [|done].
  intros _. simpl. pose proof (scan_rows_nil_iff _ _ E) as Hn.
  destruct (decide (nc = ∅)) as [He|He].
  - rewrite decide_True; [done|].
    apply Hn in He. apply (f_equal length) in He. rewrite length_drop in He.
    simpl in He. lia.
  - rewrite decide_False; [done|]. intros Hle. apply He, Hn. by apply drop_ge.
Qed.

(** A file of rows that classify as nothing still signals; a second call
    on it is silent. *)
Lemma signal_iff_new_rows_witness :
  snd (process_csv init "log.csv" (ReadOk junk))
  = Emitted (cumulative_counts (fst (process_csv init "log.csv" (ReadOk junk))))
  ∧ snd (process_csv after3 "log.csv" (ReadOk log3)) = Quiet.
Proof.
  split.
  - rewrite (signal_iff_new_rows init "log.csv" junk); [reflexivity|].
    vm_compute. discriminate.
  - rewrite (signal_iff_new_rows after3 "log.csv" log3); [reflexivity|].
    vm_compute. discriminate.
Defined.

(** X4.  After a call that does not raise, the printers with an entry in
    the cumulative counts are those that had one before and those named
    by a row beyond the cursor: a printer gets its entry from the first
    of its rows that is read, whatever the outcome of that row, and no
    other entry appears. *)
Theorem printer_entries m path rows m' o :
  process_csv m path (ReadOk rows) = (m', o) →
  o ≠ Raised →
  ∀ p, is_Some (cumulative_counts m' !! p)
       ↔ is_Some (cumulative_counts m !! p)
         ∨ Exists (fun r => printer_of r = Some p) (drop (cursor m path) rows).
Proof.
  rewrite process_csv_rows.
  destruct (scan_rows ∅ (drop (cursor m path) rows)) as [nc|] eqn:E;
    [|by intros [= <- <-]].
  intros [= <- _] _ p. simpl.
  rewrite accumulate_dom, (scan_rows_dom _ _ _ E p), lookup_empty.
  split; [|naive_solver]. intros [H|[[? [=]]|H]]; eauto.
Qed.

(** The rows of [junk] give P1 and the fallback printer an entry, with
    counters at zero. *)
Lemma printer_entries_witness :
  is_Some (cumulative_counts (fst (process_csv init "log.csv" (ReadOk junk))) !! "Printer_1")
  ∧ counters (fst (process_csv init "log.csv" (ReadOk junk))) "Printer_1" = zero.
Proof.
  split; [|reflexivity].
  apply (printer_entries init "log.csv" junk _
           (snd (process_csv init "log.csv" (ReadOk junk)))).
  - reflexivity.
  - vm_compute. discriminate.
  - right. vm_compute. apply Exists_cons_tl, Exists_cons_tl, Exists_cons_hd.
    reflexivity.
Defined.

(** *** Printer keys are stripped *)

Lemma lstrip_head s :
  lstrip s = "" ∨ ∃ a t, lstrip s = String a t ∧ isspace a = false.
Proof.
  induction s as [|a s IH]; simpl; [by left|].
  destruct (isspace a) eqn:E; [exact IH|]. right. by exists a, s.
Qed.

Lemma rstrip_cons a s : isspace a = false → rstrip (String a s) = String a (rstrip s).
Proof. intros H. simpl. rewrite H. by destruct (rstrip s). Qed.

Lemma rstrip_idemp s : rstrip (rstrip s) = rstrip s.
Proof.
  induction s as [|a s IH]; simpl; [done|].
  destruct (rstrip s) as [|b t] eqn:E.
  - destruct (isspace a) eqn:Ea; simpl; [done|]. by rewrite Ea.
  - change (rstrip (String a (String b t)))
      with (match rstrip (String b t) with
            | EmptyString => if isspace a then EmptyString else String a EmptyString
            | String c u => String a (String c u)
            end).
    by rewrite IH.
Qed.

Lemma strip_idemp s : strip (strip s) = strip s.
Proof.
  unfold strip. destruct (lstrip_head s) as [->|(a & t & -> & Ha)]; [done|].
  rewrite (rstrip_cons a t Ha). simpl lstrip. rewrite Ha.
  rewrite <- (rstrip_cons a t Ha). apply rstrip_idemp.
Qed.

Lemma printer_of_stripped r p : printer_of r = Some p → strip p = p.
Proof.
  unfold printer_of, get_strip.
  destruct (r !! "Printer Name") as [[s|]|]; intros [= <-]; apply strip_idemp.
Qed.

Lemma batch_keys last_count f p :
  is_Some (snd (effect last_count f) !! p) → strip p = p.
Proof.
  destruct f as [|rows]; simpl; [by intros [? [=]]|].
  destruct (scan_rows ∅ (drop last_count rows)) as [nc|] eqn:E; simpl;
    [|by intros [? [=]]].
  intros H. apply (scan_rows_dom _ _ _ E) in H.
  destruct H as [[? [=]]|H]. apply Exists_exists in H.
  destruct H as (r & _ & Hr). by apply (printer_of_stripped r).
Qed.

Lemma batch_bounds last_count f p :
  (0 ≤ pass (default zero (snd (effect last_count f) !! p)))%Z
  ∧ (0 ≤ fail (default zero (snd (effect last_count f) !! p)))%Z.
Proof.
  rewrite effect_batch. destruct f as [|rows]; [done|].
  destruct (scan_rows ∅ (drop last_count rows)); [|done].
  pose proof (tally_bounds (drop last_count rows) p). tauto.
Qed.

(** The invariant of the reachable states. *)
Lemma reachable_invariant m :
  reachable m →
  ∀ p, (is_Some (cumulative_counts m !! p) → strip p = p)
       ∧ (0 ≤ pass (counters m p))%Z ∧ (0 ≤ fail (counters m p))%Z.
Proof.
  assert (Hstep : ∀ m path f,
    (∀ p, (is_Some (cumulative_counts m !! p) → strip p = p)
          ∧ (0 ≤ pass (counters m p))%Z ∧ (0 ≤ fail (counters m p))%Z) →
    ∀ p, (is_Some (cumulative_counts (fst (process_csv m path f)) !! p) → strip p = p)
         ∧ (0 ≤ pass (counters (fst (process_csv m path f)) p))%Z
         ∧ (0 ≤ fail (counters (fst (process_csv m path f)) p))%Z).
  { intros m0 path f IH p. destruct (IH p) as (Hk & Hp & Hf). split.
    - rewrite process_csv_effect. cbn [cumulative_counts].
      rewrite accumulate_dom. intros [H|H]; [by apply Hk|].
      by apply (batch_keys _ _ _ H).
    - rewrite counters_after.
      pose proof (batch_bounds (cursor m0 path) f p). simpl. lia. }
  induction 1 as [|m path f _ IH|m path f _ IH].
  - intros p. unfold counters. simpl. rewrite lookup_empty. simpl.
    split; [by intros [? [=]]|lia].
  - by apply Hstep.
  - unfold on_created. apply Hstep. exact IH.
Qed.

(** X5.  In every state a monitor can reach, the printers of the
    cumulative counts are stripped names (a name with leading or trailing
    whitespace is never a key), and no counter is negative. *)
Theorem reachable_counts m :
  reachable m →
  ∀ p, (is_Some (cumulative_counts m !! p) → strip p = p)
       ∧ (0 ≤ pass (counters m p))%Z ∧ (0 ≤ fail (counters m p))%Z.
Proof. apply reachable_invariant. Qed.

Lemma reachable_counts_witness :
  strip "" = "" ∧ (0 ≤ pass (counters after3 "P1"))%Z.
Proof.
  assert (H : reachable (fst (process_csv after3 "log.csv"
                                (ReadOk (log3 ++ [blank_printer_row]))))).
  { apply (reach_modified after3). apply (reach_modified init). apply reach_init. }
  destruct (reachable_counts _ H "") as (Hk & _).
  destruct (reachable_counts after3 (reach_modified init "log.csv" (ReadOk log3) reach_init) "P1")
    as (_ & Hp & _).
  split; [|exact Hp]. apply Hk. vm_compute. eauto.
Defined.

(** *** A row that cannot be read *)

Lemma scan_rows_unreadable (rows : list row) : ∀ nc j r,
  rows !! j = Some r →
  r !! "Failure Message" = Some None ∨ r !! "Printer Name" = Some None →
  scan_rows nc rows = None.
Proof.
  induction rows as [|x rows IH]; intros nc j r Hj Hr; [done|]. simpl.
  destruct (row_step nc x) as [nc1|] eqn:E; simpl; [|done].
  destruct j as [|j]; simpl in Hj.
  - injection Hj as ->. exfalso. unfold row_step, get_strip in E.
    destruct Hr as [Hr|Hr]; rewrite Hr in E; simpl in E; [done|].
    by destruct (r !! "Failure Message") as [[?|]|].
  - by apply (IH nc1 j r).
Qed.

(** X6.  A row with a [None] field (a line shorter than the header) at or
    beyond the cursor blocks its file: as long as the row is where it is,
    every call raises, so the cursor never moves and no row of the file,
    before or after the bad one, is ever counted. *)
Theorem unreadable_row_blocks_file m path reads i r :
  (cursor m path ≤ i)%nat →
  r !! "Failure Message" = Some None ∨ r !! "Printer Name" = Some None →
  Forall (fun f => match f with
                   | ReadError => True
                   | ReadOk rows => rows !! i = Some r
                   end) reads →
  cursor (run m path reads) path = cursor m path
  ∧ cumulative_counts (run m path reads) = cumulative_counts m
  ∧ Forall (fun f => snd (process_csv (run m path reads) path f) = Raised) reads.
Proof.
  intros Hi Hr Hall.
  assert (Hraise : ∀ m0 f, cursor m0 path = cursor m path →
            match f with ReadError => True | ReadOk rows => rows !! i = Some r end →
            process_csv m0 path f
            = (mk (seen m0 path) (cumulative_counts m0), Raised)).
  { intros m0 [|rows] Hc Hf; [done|]. rewrite process_csv_rows.
    rewrite (scan_rows_unreadable _ ∅ (i - cursor m0 path) r); [done| |done].
    rewrite lookup_drop, Hc. rewrite <- Hf. f_equal. lia. }
  assert (Hrun : ∀ l, Forall (fun f => match f with
                                       | ReadError => True
                                       | ReadOk rows => rows !! i = Some r
                                       end) l →
            cursor (run m path l) path = cursor m path
            ∧ cumulative_counts (run m path l) = cumulative_counts m).
  { intros l. induction l as [|f l IH] using rev_ind; intros Hl; [done|].
    apply Forall_app in Hl. destruct Hl as [Hl Hf].
    rewrite Forall_singleton in Hf. destruct (IH Hl) as [Hc Hk].
    rewrite run_app.
    change (run (run m path l) path [f])
      with (fst (process_csv (run m path l) path f)).
    rewrite (Hraise _ f Hc Hf). simpl. unfold cursor at 1. simpl.
    by rewrite (seen_lookup _ path path). }
  destruct (Hrun reads Hall) as [Hc Hk]. split; [done|]. split; [done|].
  eapply Forall_impl; [exact Hall|]. intros f Hf. simpl.
  by rewrite (Hraise _ f Hc Hf).
Qed.

Lemma unreadable_row_blocks_file_witness :
  cursor (run init "log.csv"
            [ReadOk [pass_row; short_row]; ReadOk [pass_row; short_row; pass_row]])
         "log.csv" = 0%nat
  ∧ cumulative_counts
      (run init "log.csv"
         [ReadOk [pass_row; short_row]; ReadOk [pass_row; short_row; pass_row]])
    = ∅.
Proof.
  destruct (unreadable_row_blocks_file init "log.csv"
              [ReadOk [pass_row; short_row]; ReadOk [pass_row; short_row; pass_row]]
              1 short_row) as (Hc & Hk & _).
  - vm_compute. lia.
  - left. reflexivity.
  - repeat constructor.
  - split; [exact Hc|exact Hk].
Defined.

(** *** Created notifications, and notifications that were merged *)

(** X7.  [on_created] counts the whole file whatever was consumed of it:
    with rows that can all be read, every printer's counters grow by the
    events of all the rows of the file and the cursor is its number of
    rows.  So a created notification for a file whose rows were already
    consumed counts each of them a second time, where a modified
    notification changes nothing. *)
Theorem created_counts_whole_file m path rows :
  Forall readable rows →
  (∀ p, counters (fst (on_created m path (ReadOk rows))) p
        = add_counts (counters m p) (tally rows p))
  ∧ cursor (fst (on_created m path (ReadOk rows))) path = length rows
  ∧ (file_row_counts m !! path = Some (length rows) →
     fst (on_modified m path (ReadOk rows)) = m).
Proof.
  intros Hr. unfold on_created, on_modified.
  assert (Hm : file_row_counts m !! path = Some (length rows) →
               fst (process_csv m path (ReadOk rows)) = m)
    by (intros H; by rewrite (process_csv_no_new_rows m path rows H)).
  revert Hm. generalize (fst (process_csv m path (ReadOk rows))). intros m1 Hm.
  set (m0 := mk (<[path:=0%nat]> (file_row_counts m)) (cumulative_counts m)).
  assert (Hc0 : cursor m0 path = 0%nat)
    by (unfold cursor, m0; simpl; by rewrite lookup_insert_eq).
  pose proof (process_csv_readable m0 path rows Hr) as Ho.
  destruct (process_csv m0 path (ReadOk rows)) as [m' o] eqn:E. simpl in Ho.
  destruct (process_csv_ok _ _ _ _ _ E Ho) as [Hf Hc]. simpl fst.
  split; [|split].
  - intros p. rewrite Hc, Hc0. done.
  - unfold cursor. by rewrite Hf, lookup_insert_eq.
  - exact Hm.
Qed.

Lemma created_counts_whole_file_witness :
  counters (fst (on_created after3 "log.csv" (ReadOk log3))) "P1" = mkCounts 4 2
  ∧ fst (on_modified after3 "log.csv" (ReadOk log3)) = after3.
Proof.
  assert (Hr : Forall readable log3).
  { repeat constructor; vm_compute; discriminate. }
  destruct (created_counts_whole_file after3 "log.csv" log3 Hr) as (Hc & _ & Hm).
  split; [rewrite Hc; reflexivity|]. apply Hm. reflexivity.
Defined.

Lemma counts_map_eq (m1 m2 : gmap string Counts) :
  (∀ p, (is_Some (m1 !! p) ↔ is_Some (m2 !! p))
        ∧ default zero (m1 !! p) = default zero (m2 !! p)) →
  m1 = m2.
Proof.
  intros H. apply map_eq. intros p. destruct (H p) as [Hs Hd].
  destruct (m1 !! p) as [x|] eqn:E1, (m2 !! p) as [y|] eqn:E2; simpl in *.
  - by subst.
  - destruct (proj1 Hs) as [? [=]]. eauto.
  - destruct (proj2 Hs) as [? [=]]. eauto.
  - done.
Qed.

Lemma effect_new_rows (old new : list row) :
  Forall readable new →
  ∃ nc, scan_rows ∅ new = Some nc
        ∧ effect (length old) (ReadOk (old ++ new)) = (length (old ++ new), nc).
Proof.
  intros H. destruct (scan_rows_readable new ∅ H) as [nc Hnc].
  exists nc. split; [done|]. unfold effect. by rewrite drop_app_length, Hnc.
Qed.

(** X8.  Two notifications merged into one change nothing: reading the
    file after a first batch of new rows and again after a second batch
    leaves the monitor in the same state as reading it once after both
    (the rows being readable). *)
Theorem merged_notifications m path (old new1 new2 : list row) :
  cursor m path = length old →
  Forall readable new1 →
  Forall readable new2 →
  run m path [ReadOk (old ++ new1); ReadOk ((old ++ new1) ++ new2)]
  = run m path [ReadOk ((old ++ new1) ++ new2)].
Proof.
  intros Hc H1 H2.
  change (fst (process_csv (fst (process_csv m path (ReadOk (old ++ new1))))
                 path (ReadOk ((old ++ new1) ++ new2)))
          = fst (process_csv m path (ReadOk ((old ++ new1) ++ new2)))).
  destruct (effect_new_rows old new1 H1) as (nc1 & Hn1 & E1).
  destruct (effect_new_rows (old ++ new1) new2 H2) as (nc2 & Hn2 & E2).
  assert (H12 : Forall readable (new1 ++ new2)) by (by apply Forall_app).
  destruct (effect_new_rows old (new1 ++ new2) H12) as (nc12 & Hn12 & E12).
  rewrite app_assoc in E12.
  assert (Hm1 : fst (process_csv m path (ReadOk (old ++ new1)))
                = mk (<[path := length (old ++ new1)]> (file_row_counts m))
                     (accumulate (cumulative_counts m) nc1)).
  { rewrite process_csv_effect, Hc, E1. done. }
  rewrite Hm1.
  rewrite (process_csv_effect _ path (ReadOk ((old ++ new1) ++ new2))).
  rewrite (process_csv_effect m path (ReadOk ((old ++ new1) ++ new2))).
  assert (Hc1 : cursor (mk (<[path := length (old ++ new1)]> (file_row_counts m))
                           (accumulate (cumulative_counts m) nc1)) path
                = length (old ++ new1)).
  { unfold cursor. cbn [file_row_counts]. by rewrite lookup_insert_eq. }
  rewrite Hc1, Hc, E2, E12. cbn [fst snd file_row_counts cumulative_counts].
  rewrite insert_insert_eq. f_equal.
  apply counts_map_eq. intros p. split.
  - rewrite !accumulate_dom.
    rewrite (scan_rows_dom _ _ _ Hn1 p), (scan_rows_dom _ _ _ Hn2 p),
      (scan_rows_dom _ _ _ Hn12 p), Exists_app. tauto.
  - rewrite !accumulate_counts.
    rewrite (scan_rows_counts _ _ _ p Hn1), (scan_rows_counts _ _ _ p Hn2),
      (scan_rows_counts _ _ _ p Hn12), tally_app, lookup_empty. simpl.
    rewrite !add_counts_zero_l. apply add_counts_assoc.
Qed.

Lemma merged_notifications_witness :
  run init "log.csv" [ReadOk ([] ++ log3); ReadOk (([] ++ log3) ++ [fail_row; pass_row])]
  = run init "log.csv" [ReadOk (([] ++ log3) ++ [fail_row; pass_row])].
Proof.
  apply (merged_notifications init "log.csv" [] log3 [fail_row; pass_row]).
  - reflexivity.
  - repeat constructor; vm_compute; discriminate.
  - repeat constructor; vm_compute; discriminate.
Defined.

End MonitorMore.

(* ===================================================================== *)
(** ** Further properties of rolls and jobs *)
(* ===================================================================== *)

Module RollMore.
Import Roll Samples RollFacts.

Lemma step_labels_goal r e r' : step r e = Some r' → labels_goal r' = labels_goal r.
Proof.
  destruct e as [| |yes|c]; simpl.
  - intros [= <-]. unfold click_start, start_roll.
    destruct (start_btn r); [|done]. by destruct (decide _).
  - intros [= <-]. unfold click_pause, toggle_pause.
    destruct (pause_btn r); [|done]. by repeat destruct (decide _).
  - intros [= <-]. unfold confirm_stop, stop_roll.
    destruct (stop_btn r); [|done]. destruct yes; [|done]. by destruct (decide _).
  - unfold update_progress. destruct (decide _); [by intros [= <-]|].
    destruct (baseline_pass r); [|by intros [= <-]].
    destruct (baseline_fail r); simpl; [|done]. intros [= <-].
    by destruct (decide _).
Qed.

(** X9.  A roll on screen whose goal is positive never shows more
    progress than its goal, and it is Completed exactly when its progress
    equals the goal: a roll that is idle, running, paused or stopped is
    always short of it. *)
Theorem progress_bounded_by_goal r :
  reachable r →
  (0 < labels_goal r)%Z →
  (current_progress r ≤ labels_goal r)%Z
  ∧ (state r = completed ↔ current_progress r = labels_goal r).
Proof.
  induction 1 as [j n g p|r e r' Hr IH Hstep]; intros Hg.
  - simpl in *. split; [lia|]. split; [discriminate|lia].
  - pose proof (step_labels_goal r e r' Hstep) as Hgoal.
    rewrite Hgoal in *. destruct (IH Hg) as [Hle Hiff].
    destruct (reachable_on_screen r Hr) as ([Hs1 Hs2] & _ & _).
    destruct e as [| |yes|c]; simpl in Hstep.
    + injection Hstep as <-. unfold click_start, start_roll.
      destruct (start_btn r) eqn:Eb; [|done].
      destruct (decide _); [|done]. simpl. split; [done|].
      specialize (Hs1 eq_refl). rewrite Hs1 in Hiff.
      split; [discriminate|]. intros H. by apply Hiff in H.
    + injection Hstep as <-. unfold click_pause, toggle_pause.
      destruct (pause_btn r); [|done].
      destruct (decide (state r = running)) as [E|E].
      { simpl. split; [done|]. rewrite E in Hiff.
        split; [discriminate|]. intros H. by apply Hiff in H. }
      destruct (decide (state r = paused)) as [E'|E']; [|done].
      simpl. split; [done|]. rewrite E' in Hiff.
      split; [discriminate|]. intros H. by apply Hiff in H.
    + injection Hstep as <-. unfold confirm_stop, stop_roll.
      destruct (stop_btn r); [|done]. destruct yes; [|done].
      destruct (decide _) as [E|E]; [|done]. simpl. split; [done|].
      split; [discriminate|]. intros H. apply Hiff in H.
      destruct E as [E|E]; rewrite E in H; discriminate.
    + unfold update_progress in Hstep.
      destruct (decide (state r ≠ running)) as [E|E];
        [by injection Hstep as <-|].
      destruct (decide (state r = running)) as [Hrun|Hrun]; [|by destruct E].
      destruct (baseline_pass r) as [bp|]; [|by injection Hstep as <-].
      destruct (baseline_fail r) as [bf|]; simpl in Hstep; [|done].
      injection Hstep as <-.
      destruct (decide _) as [Hc|Hc]; simpl in *.
      * split; [lia|]. split; [lia|done].
      * split; [lia|]. rewrite Hrun. split; [discriminate|lia].
Qed.

Lemma roll1_based_reachable : reachable roll1_based.
Proof.
  apply (reach_step (start_roll roll1) (Update (snapshot 2 0))); [|reflexivity].
  apply (reach_step roll1 ClickStart); [|reflexivity]. apply reach_init.
Qed.

Lemma progress_bounded_by_goal_witness :
  (current_progress roll1_based ≤ 100)%Z ∧ state roll1_based ≠ completed.
Proof.
  destruct (progress_bounded_by_goal roll1_based roll1_based_reachable)
    as [H1 H2]; [reflexivity|].
  split; [exact H1|]. intros H. apply H2 in H. discriminate H.
Defined.

(** X10.  A pause hides nothing from the count.  While a roll is paused
    every update is dropped, but the baseline is kept, so the first
    update after the resume gives the progress and the state that the
    same update would have given had the roll never been paused: the
    labels passed during the pause are counted. *)
Theorem pause_does_not_discount r bp bf cs c :
  state r = running →
  baseline_pass r = Some bp →
  baseline_fail r = Some bf →
  update_all (toggle_pause r) cs = Some (toggle_pause r)
  ∧ ∃ r1 r2,
      update_progress (toggle_pause (toggle_pause r)) c = Some r1
      ∧ update_progress r c = Some r2
      ∧ current_progress r1 = current_progress r2
      ∧ state r1 = state r2
      ∧ current_progress r1 = Z.min (get0 c "pass" - bp) (labels_goal r).
Proof.
  intros Hs Hp Hf.
  assert (E1 : toggle_pause r = set_state paused r)
    by (unfold toggle_pause; by rewrite decide_True).
  assert (E2 : toggle_pause (set_state paused r)
               = log_roll_action "resume" "" (set_state running (set_state paused r))).
  { reflexivity. }
  rewrite E1. split; [by apply update_all_not_running|]. rewrite E2.
  eexists _, _. split; [by apply (update_progress_advance _ c bp bf)|].
  split; [by apply (update_progress_advance _ c bp bf)|].
  simpl. destruct (decide _); simpl; by rewrite ?Hs.
Qed.

Lemma pause_does_not_discount_witness :
  current_progress <$> update_progress roll1_resumed (snapshot 50 0)
  = current_progress <$> update_progress roll1_based (snapshot 50 0).
Proof.
  destruct (pause_does_not_discount roll1_based 2 0 [] (snapshot 50 0))
    as (_ & r1 & r2 & H1 & H2 & H3 & _); [reflexivity..|].
  unfold roll1_resumed, roll1_paused. rewrite H1, H2. simpl. by rewrite H3.
Defined.

End RollMore.

Module JobMore.
Import Samples RollFacts.

(** X11.  [update_rolls] changes at most one roll: when the table holds
    the printer of the job, the first roll that is running is updated and
    every other roll, a later running one included, is left as it is;
    when no roll is running nothing changes.  The rolls are never
    reordered, added or dropped. *)
Theorem update_rolls_first_running_only job rolls update_data cumulative rolls' :
  update_data !! Job.printer_name job = Some cumulative →
  Job.update_rolls job rolls update_data = Some rolls' →
  (Forall (fun r => Roll.state r ≠ Roll.running) rolls ∧ rolls' = rolls)
  ∨ ∃ before r r' after,
      rolls = (before ++ r :: after)%list
      ∧ Forall (fun r => Roll.state r ≠ Roll.running) before
      ∧ Roll.state r = Roll.running
      ∧ Roll.update_progress r cumulative = Some r'
      ∧ rolls' = (before ++ r' :: after)%list.
Proof.
  intros Hl. unfold Job.update_rolls. rewrite Hl. clear Hl.
  revert rolls'. induction rolls as [|x rolls IH]; intros rolls'; simpl.
  - intros [= <-]. by left.
  - destruct (decide (Roll.state x = Roll.running)) as [E|E].
    + destruct (Roll.update_progress x cumulative) as [x'|] eqn:Ex; simpl; [|done].
      intros [= <-]. right. exists [], x, x', rolls. by repeat split.
    + destruct (Job.update_first_running rolls cumulative) as [rest|] eqn:Er;
        simpl; [|done].
      intros [= <-]. destruct (IH rest eq_refl) as [[Hall ->]|H].
      * left. split; [by constructor|done].
      * right. destruct H as (before & r & r' & after & -> & Hb & Hs & Hu & ->).
        exists (x :: before), r, r', after. repeat split; try done.
        by constructor.
Qed.

(** Two running rolls: only the first one takes the update. *)
Lemma update_rolls_first_running_only_witness :
  Job.update_rolls job250 [roll1_based; roll1_based] {[ "P1" := snapshot 52 0 ]}
  = Some [Roll.set_current_progress 50 roll1_based; roll1_based].
Proof.
  destruct (update_rolls_first_running_only job250 [roll1_based; roll1_based]
              {[ "P1" := snapshot 52 0 ]} (snapshot 52 0)
              [Roll.set_current_progress 50 roll1_based; roll1_based])
    as [[_ H]|_]; reflexivity.
Defined.

End JobMore.

(* ===================================================================== *)
(** ** From a log to the progress of a roll *)
(* ===================================================================== *)

Module PipelineMore.
Import PyStr Monitor Events Samples MonitorFacts MonitorRun MonitorMore.
Import Window RollFacts.

Lemma get0_counts_dict c :
  Roll.get0 (counts_dict c) "pass" = pass c
  ∧ Roll.get0 (counts_dict c) "fail" = fail c.
Proof.
  unfold Roll.get0, counts_dict. rewrite lookup_insert_eq.
  rewrite lookup_insert_ne by discriminate. by rewrite lookup_singleton_eq.
Qed.

(** The rolls before the first running one are passed over. *)
Lemma update_first_running_skip (before rolls : list Roll.t) c :
  Forall (fun r => Roll.state r ≠ Roll.running) before →
  Job.update_first_running (before ++ rolls) c
  = (fun rolls' => (before ++ rolls')%list) <$> Job.update_first_running rolls c.
Proof.
  induction 1 as [|x before Hx _ IH]; simpl.
  - by destruct (Job.update_first_running rolls c).
  - rewrite decide_False by done. rewrite IH.
    by destruct (Job.update_first_running rolls c).
Qed.

(** A call that reads new rows, all readable: the signal, and the entry
    of a printer in it. *)
Lemma new_rows_signal m path (old new : list row) printer :
  cursor m path = length old →
  Forall readable new →
  new ≠ [] →
  ∃ snapshot,
    process_csv m path (ReadOk (old ++ new))
    = (mk (<[path := length (old ++ new)]> (file_row_counts m)) snapshot,
       Emitted snapshot)
    ∧ (is_Some (cumulative_counts m !! printer)
       ∨ Exists (fun r => printer_of r = Some printer) new →
       snapshot !! printer
       = Some (add_counts (counters m printer) (tally new printer)))
    ∧ (cumulative_counts m !! printer = None →
       Forall (fun r => printer_of r ≠ Some printer) new →
       snapshot !! printer = None).
Proof.
  intros Hc Hr Hne. destruct (scan_rows_readable new ∅ Hr) as [nc Hnc].
  exists (accumulate (cumulative_counts m) nc).
  pose proof (scan_rows_counts _ _ _ printer Hnc) as Ht.
  rewrite lookup_empty in Ht. simpl in Ht. rewrite add_counts_zero_l in Ht.
  pose proof (scan_rows_dom _ _ _ Hnc printer) as Hd. rewrite lookup_empty in Hd.
  split; [|split].
  - rewrite process_csv_rows, Hc, drop_app_length, Hnc.
    rewrite decide_False; [done|]. intros He.
    by apply (scan_rows_nil_iff _ _ Hnc) in He.
  - intros Hin. rewrite accumulate_lookup. unfold counters.
    destruct (nc !! printer) as [n|] eqn:En; simpl in Ht; subst; [done|].
    destruct Hin as [[c Hc0]|Hex].
    + rewrite Hc0. simpl. by rewrite <- Ht, add_counts_zero_r.
    + destruct (proj2 Hd) as [? [=]]. by right.
  - intros Hn Hall. rewrite accumulate_lookup, Hn.
    destruct (nc !! printer) as [n|] eqn:En; [|done].
    destruct (proj1 Hd) as [[? [=]]|Hex]; [eauto|].
    apply Exists_exists in Hex as (r & Hin & Hpr).
    by destruct (proj1 (Forall_forall _ _) Hall r Hin).
Qed.

Lemma notify_advance m path (old new : list row) job before r after bp bf :
  cursor m path = length old →
  Forall readable new →
  new ≠ [] →
  cumulative_counts m !! Job.printer_name job = Some (mkCounts bp bf) →
  Forall (fun x => Roll.state x ≠ Roll.running) before →
  Roll.state r = Roll.running →
  Roll.baseline_pass r = Some bp →
  Roll.baseline_fail r = Some bf →
  ∃ r', notify (snd (process_csv m path (ReadOk (old ++ new)))) job
               (before ++ r :: after)
        = Some (before ++ r' :: after)%list
        ∧ Roll.current_progress r'
          = Z.min (occurrences (Job.printer_name job, Pass) new) (Roll.labels_goal r)
        ∧ (Roll.state r' = Roll.completed
           ↔ (Roll.labels_goal r ≤ occurrences (Job.printer_name job, Pass) new)%Z)
        ∧ Roll.baseline_pass r' = Some bp
        ∧ Roll.labels_goal r' = Roll.labels_goal r.
Proof.
  intros Hc Hr Hne Hp Hbefore Hs Hbp Hbf.
  destruct (new_rows_signal m path old new (Job.printer_name job) Hc Hr Hne)
    as (snap & E & Hl & _).
  rewrite E. simpl snd. unfold notify, Job.update_rolls, payload.
  rewrite lookup_fmap, Hl by eauto. unfold counters. rewrite Hp. simpl.
  rewrite (update_first_running_skip before _ _ Hbefore). simpl.
  rewrite decide_True by done.
  rewrite (update_progress_advance r _ bp bf Hs Hbp Hbf). simpl.
  destruct (get0_counts_dict (add_counts (mkCounts bp bf)
                                (tally new (Job.printer_name job)))) as [-> _].
  simpl.
  replace (bp + occurrences (Job.printer_name job, Pass) new - bp)%Z
    with (occurrences (Job.printer_name job, Pass) new) by lia.
  eexists. split; [reflexivity|].
  destruct (decide _) as [Hd|Hd]; simpl.
  - split; [done|]. split; [|done]. split; [intros _; lia|done].
  - rewrite Hs. split; [done|]. split; [|done].
    split; [discriminate|intros; exfalso; lia].
Qed.

Lemma notify_capture m path (old new : list row) job before r after :
  cursor m path = length old →
  Forall readable new →
  new ≠ [] →
  is_Some (cumulative_counts m !! Job.printer_name job)
  ∨ Exists (fun x => printer_of x = Some (Job.printer_name job)) new →
  Forall (fun x => Roll.state x ≠ Roll.running) before →
  Roll.state r = Roll.running →
  Roll.baseline_pass r = None →
  notify (snd (process_csv m path (ReadOk (old ++ new)))) job (before ++ r :: after)
  = Some (before
          ++ Roll.set_baseline
               (Some (pass (counters m (Job.printer_name job))
                      + occurrences (Job.printer_name job, Pass) new)%Z)
               (Some (fail (counters m (Job.printer_name job))
                      + occurrences (Job.printer_name job, Fail) new)%Z)
               r :: after)%list.
Proof.
  intros Hc Hr Hne Hp Hbefore Hs Hb.
  destruct (new_rows_signal m path old new (Job.printer_name job) Hc Hr Hne)
    as (snap & E & Hl & _).
  rewrite E. simpl snd. unfold notify, Job.update_rolls, payload.
  rewrite lookup_fmap, Hl by done. simpl.
  rewrite (update_first_running_skip before _ _ Hbefore). simpl.
  rewrite decide_True by done.
  rewrite (update_progress_capture r _ Hs Hb). simpl.
  by destruct (get0_counts_dict (add_counts (counters m (Job.printer_name job))
                                   (tally new (Job.printer_name job))))
    as [-> ->].
Qed.

Lemma notify_absent m path (old new : list row) job rolls :
  cursor m path = length old →
  Forall readable new →
  new ≠ [] →
  cumulative_counts m !! Job.printer_name job = None →
  Forall (fun x => printer_of x ≠ Some (Job.printer_name job)) new →
  notify (snd (process_csv m path (ReadOk (old ++ new)))) job rolls = Some rolls.
Proof.
  intros Hc Hr Hne Hn Hall.
  destruct (new_rows_signal m path old new (Job.printer_name job) Hc Hr Hne)
    as (snap & E & _ & Hl).
  rewrite E. simpl snd. unfold notify, Job.update_rolls, payload.
  by rewrite lookup_fmap, Hl.
Qed.

(** X12.  From the log to the roll.  The first running roll of a job,
    wherever it stands among the rolls, holds as baseline the counters of
    the job's printer; new readable rows are appended to a file and the
    file is processed.  Then the signal reaches that roll and no other:
    its progress is the number of new rows that are passes of that
    printer, capped at the goal, and it is Completed exactly when that
    number reaches the goal; fails, rows of other printers and rows that
    classify as nothing do not count. *)
Theorem roll_progress_is_new_passes
    m path (old new : list row) job before r after bp bf :
  cursor m path = length old →
  Forall readable new →
  new ≠ [] →
  cumulative_counts m !! Job.printer_name job = Some (mkCounts bp bf) →
  Forall (fun x => Roll.state x ≠ Roll.running) before →
  Roll.state r = Roll.running →
  Roll.baseline_pass r = Some bp →
  Roll.baseline_fail r = Some bf →
  ∃ r', notify (snd (process_csv m path (ReadOk (old ++ new)))) job
               (before ++ r :: after)
        = Some (before ++ r' :: after)%list
        ∧ Roll.current_progress r'
          = Z.min (occurrences (Job.printer_name job, Pass) new) (Roll.labels_goal r)
        ∧ (Roll.state r' = Roll.completed
           ↔ (Roll.labels_goal r ≤ occurrences (Job.printer_name job, Pass) new)%Z).
Proof.
  intros Hc Hr Hne Hp Hbefore Hs Hbp Hbf.
  destruct (notify_advance m path old new job before r after bp bf
              Hc Hr Hne Hp Hbefore Hs Hbp Hbf)
    as (r' & H1 & H2 & H3 & _).
  by exists r'.
Qed.

(** Roll 1 stopped, roll 2 running, a later roll running too: the signal
    moves roll 2 alone. *)
Lemma roll_progress_is_new_passes_witness :
  ∃ r', notify (snd (process_csv after3 "log.csv"
                       (ReadOk (log3 ++ [fail_row; pass_row]))))
               job250
               ([roll1_stopped] ++ MoreSamples.roll1_synced
                  :: [MoreSamples.roll1_synced])
        = Some ([roll1_stopped] ++ r' :: [MoreSamples.roll1_synced])%list
        ∧ Roll.current_progress r' = 1%Z.
Proof.
  assert (Hr : Forall readable [fail_row; pass_row])
    by (repeat constructor; vm_compute; discriminate).
  assert (Hne : [fail_row; pass_row] ≠ []) by discriminate.
  assert (Hb : Forall (fun x => Roll.state x ≠ Roll.running) [roll1_stopped])
    by (repeat constructor; vm_compute; discriminate).
  destruct (roll_progress_is_new_passes after3 "log.csv" log3 [fail_row; pass_row]
              job250 [roll1_stopped] MoreSamples.roll1_synced
              [MoreSamples.roll1_synced] 2 1
              eq_refl Hr Hne eq_refl Hb eq_refl eq_refl eq_refl)
    as (r' & H1 & H2 & _).
  exists r'. split; [exact H1|]. rewrite H2. reflexivity.
Defined.

(** X13.  The batch that brings the first signal after a start is not
    counted.  The first running roll of a job has just been started and
    new readable rows are processed.  If the job's printer has an entry
    in the table after them (it had one before, or one of the rows names
    it), the signal only sets the baseline of that roll, to the counters
    as they are after those rows, and its progress stays where it was;
    after a second batch the progress is the number of passes of the
    second batch alone, capped at the goal, however many passes the first
    batch held.  If the printer has no entry after the first batch, the
    signal leaves the roll as it was started, its baseline unset; it is
    then the second batch, if it names the printer, that only sets the
    baseline and leaves the progress where it was. *)
Theorem first_batch_after_start_not_counted
    m path (old new1 new2 : list row) job before r0 after :
  cursor m path = length old →
  Forall readable new1 → new1 ≠ [] →
  Forall readable new2 → new2 ≠ [] →
  Forall (fun x => Roll.state x ≠ Roll.running) before →
  Roll.state r0 ≠ Roll.running →
  (is_Some (cumulative_counts m !! Job.printer_name job)
   ∨ Exists (fun x => printer_of x = Some (Job.printer_name job)) new1 →
   ∃ r1 r2,
     notify (snd (process_csv m path (ReadOk (old ++ new1))))
            job (before ++ Roll.start_roll r0 :: after)
     = Some (before ++ r1 :: after)%list
     ∧ Roll.current_progress r1 = Roll.current_progress r0
     ∧ Roll.state r1 = Roll.running
     ∧ Roll.baseline_pass r1
       = Some (pass (counters (fst (process_csv m path (ReadOk (old ++ new1))))
                       (Job.printer_name job)))
     ∧ notify (snd (process_csv (fst (process_csv m path (ReadOk (old ++ new1))))
                      path (ReadOk ((old ++ new1) ++ new2))))
              job (before ++ r1 :: after)
       = Some (before ++ r2 :: after)%list
     ∧ Roll.current_progress r2
       = Z.min (occurrences (Job.printer_name job, Pass) new2) (Roll.labels_goal r0))
  ∧ (cumulative_counts m !! Job.printer_name job = None →
     Forall (fun x => printer_of x ≠ Some (Job.printer_name job)) new1 →
     notify (snd (process_csv m path (ReadOk (old ++ new1))))
            job (before ++ Roll.start_roll r0 :: after)
     = Some (before ++ Roll.start_roll r0 :: after)%list
     ∧ Roll.baseline_pass (Roll.start_roll r0) = None
     ∧ (Exists (fun x => printer_of x = Some (Job.printer_name job)) new2 →
        ∃ r2,
          notify (snd (process_csv (fst (process_csv m path (ReadOk (old ++ new1))))
                         path (ReadOk ((old ++ new1) ++ new2))))
                 job (before ++ Roll.start_roll r0 :: after)
          = Some (before ++ r2 :: after)%list
          ∧ Roll.current_progress r2 = Roll.current_progress r0
          ∧ Roll.state r2 = Roll.running
          ∧ Roll.baseline_pass r2
            = Some (occurrences (Job.printer_name job, Pass) new2))).
Proof.
  intros Hc Hr1 Hn1 Hr2 Hn2 Hbefore Hs.
  assert (E0 : Roll.start_roll r0
               = Roll.log_roll_action "start" ""
                   (Roll.set_buttons false (Roll.pause_btn r0) (Roll.stop_btn r0)
                      (Roll.set_baseline None None (Roll.set_state Roll.running r0))))
    by (unfold Roll.start_roll; by rewrite decide_True).
  assert (Hs1 : Roll.state (Roll.start_roll r0) = Roll.running) by (by rewrite E0).
  assert (Hb1 : Roll.baseline_pass (Roll.start_roll r0) = None) by (by rewrite E0).
  split.
  - intros Hp.
    pose proof (notify_capture m path old new1 job before (Roll.start_roll r0) after
                  Hc Hr1 Hn1 Hp Hbefore Hs1 Hb1) as H1.
    destruct (new_rows_signal m path old new1 (Job.printer_name job) Hc Hr1 Hn1)
      as (snap & E & Hl & _).
    specialize (Hl Hp).
    set (bp := (pass (counters m (Job.printer_name job))
                + occurrences (Job.printer_name job, Pass) new1)%Z) in *.
    set (bf := (fail (counters m (Job.printer_name job))
                + occurrences (Job.printer_name job, Fail) new1)%Z) in *.
    set (r1 := Roll.set_baseline (Some bp) (Some bf) (Roll.start_roll r0)) in *.
    assert (Hc1 : cursor (fst (process_csv m path (ReadOk (old ++ new1)))) path
                  = length (old ++ new1)).
    { rewrite E. unfold cursor. simpl. by rewrite lookup_insert_eq. }
    assert (Hp1 : cumulative_counts (fst (process_csv m path (ReadOk (old ++ new1))))
                    !! Job.printer_name job = Some (mkCounts bp bf)).
    { rewrite E. simpl. by rewrite Hl. }
    assert (Hs2 : Roll.state r1 = Roll.running) by (subst r1; by rewrite E0).
    assert (Hbp : Roll.baseline_pass r1 = Some bp) by done.
    assert (Hbf : Roll.baseline_fail r1 = Some bf) by done.
    destruct (notify_advance _ path (old ++ new1) new2 job before r1 after bp bf
                Hc1 Hr2 Hn2 Hp1 Hbefore Hs2 Hbp Hbf)
      as (r2 & G1 & G2 & _ & _ & _).
    exists r1, r2. split; [exact H1|]. split; [subst r1; by rewrite E0|].
    split; [exact Hs2|]. split.
    { unfold counters. by rewrite Hp1. }
    split; [exact G1|]. rewrite G2. subst r1. by rewrite E0.
  - intros Hn Hall. split; [by apply notify_absent|]. split; [exact Hb1|].
    intros Hex.
    destruct (new_rows_signal m path old new1 (Job.printer_name job) Hc Hr1 Hn1)
      as (snap & E & _ & Hl).
    specialize (Hl Hn Hall).
    assert (Hc1 : cursor (fst (process_csv m path (ReadOk (old ++ new1)))) path
                  = length (old ++ new1)).
    { rewrite E. unfold cursor. simpl. by rewrite lookup_insert_eq. }
    assert (Hz : counters (fst (process_csv m path (ReadOk (old ++ new1))))
                   (Job.printer_name job) = zero).
    { rewrite E. unfold counters. simpl. by rewrite Hl. }
    pose proof (notify_capture _ path (old ++ new1) new2 job before
                  (Roll.start_roll r0) after
                  Hc1 Hr2 Hn2 (or_intror Hex) Hbefore Hs1 Hb1) as H2.
    rewrite Hz in H2. eexists. split; [exact H2|].
    rewrite E0. simpl. by repeat split.
Qed.

(** After three rows of P1: roll 1 is started, two passes arrive, then
    one more: the progress is 1.  And a job on P2, which the log has not
    named yet: two passes of P1 leave its started roll as it is, and a
    pass of P2 then only sets the baseline, to 1. *)
Lemma first_batch_after_start_not_counted_witness :
  (∃ r1 r2,
    notify (snd (process_csv after3 "log.csv" (ReadOk (log3 ++ [pass_row; pass_row]))))
           job250 ([] ++ Roll.start_roll roll1 :: [])
    = Some ([] ++ r1 :: [])%list
    ∧ Roll.current_progress r1 = 0%Z
    ∧ notify (snd (process_csv
                     (fst (process_csv after3 "log.csv"
                             (ReadOk (log3 ++ [pass_row; pass_row]))))
                     "log.csv"
                     (ReadOk ((log3 ++ [pass_row; pass_row]) ++ [pass_row]))))
             job250 ([] ++ r1 :: [])
      = Some ([] ++ r2 :: [])%list
    ∧ Roll.current_progress r2 = 1%Z)
  ∧ notify (snd (process_csv after3 "log.csv" (ReadOk (log3 ++ [pass_row; pass_row]))))
           MoreSamples.job_p2 ([] ++ Roll.start_roll MoreSamples.roll_p2 :: [])
    = Some ([] ++ Roll.start_roll MoreSamples.roll_p2 :: [])%list
  ∧ ∃ r2,
      notify (snd (process_csv
                     (fst (process_csv after3 "log.csv"
                             (ReadOk (log3 ++ [pass_row; pass_row]))))
                     "log.csv"
                     (ReadOk ((log3 ++ [pass_row; pass_row])
                              ++ [MoreSamples.pass_p2]))))
             MoreSamples.job_p2 ([] ++ Roll.start_roll MoreSamples.roll_p2 :: [])
      = Some ([] ++ r2 :: [])%list
      ∧ Roll.current_progress r2 = 0%Z
      ∧ Roll.baseline_pass r2 = Some 1%Z.
Proof.
  assert (Hr1 : Forall readable [pass_row; pass_row])
    by (repeat constructor; vm_compute; discriminate).
  assert (Hr2 : Forall readable [pass_row])
    by (repeat constructor; vm_compute; discriminate).
  assert (Hr3 : Forall readable [MoreSamples.pass_p2])
    by (repeat constructor; vm_compute; discriminate).
  assert (Hn1 : [pass_row; pass_row] ≠ []) by discriminate.
  assert (Hn2 : [pass_row] ≠ []) by discriminate.
  assert (Hn3 : [MoreSamples.pass_p2] ≠ []) by discriminate.
  assert (Hb : Forall (fun x => Roll.state x ≠ Roll.running) []) by constructor.
  assert (Hs : Roll.state roll1 ≠ Roll.running) by (vm_compute; discriminate).
  assert (Hs' : Roll.state MoreSamples.roll_p2 ≠ Roll.running)
    by (vm_compute; discriminate).
  split.
  - destruct (first_batch_after_start_not_counted after3 "log.csv" log3
                [pass_row; pass_row] [pass_row] job250 [] roll1 []
                eq_refl Hr1 Hn1 Hr2 Hn2 Hb Hs)
      as (HA & _).
    destruct HA as (r1 & r2 & H1 & H2 & _ & _ & H3 & H4).
    { left. vm_compute. eauto. }
    exists r1, r2. split; [exact H1|]. split; [rewrite H2; reflexivity|].
    split; [exact H3|]. rewrite H4. reflexivity.
  - destruct (first_batch_after_start_not_counted after3 "log.csv" log3
                [pass_row; pass_row] [MoreSamples.pass_p2] MoreSamples.job_p2
                [] MoreSamples.roll_p2 []
                eq_refl Hr1 Hn1 Hr3 Hn3 Hb Hs')
      as (_ & HB).
    destruct HB as (H & _ & H2).
    { reflexivity. }
    { repeat constructor; vm_compute; discriminate. }
    split; [exact H|].
    destruct H2 as (r2 & G1 & G2 & _ & G3).
    { apply Exists_cons_hd. reflexivity. }
    exists r2. split; [exact G1|]. split; [rewrite G2|rewrite G3]; reflexivity.
Defined.

(** X14.  The monitor files every row under the stripped name of its
    printer, and [update_rolls] looks the printer of the job up as it was
    typed.  So a job whose printer name begins or ends with whitespace is
    never updated: whatever the monitor reads, in whatever state, its
    rolls are left as they are. *)
Theorem unstripped_printer_never_updated m path f job rolls :
  reachable m →
  strip (Job.printer_name job) ≠ Job.printer_name job →
  notify (snd (process_csv m path f)) job rolls = Some rolls.
Proof.
  intros Hm Hp.
  pose proof (reachable_invariant _ (reach_modified m path f Hm)
                (Job.printer_name job)) as (Hk & _).
  unfold on_modified in Hk.
  destruct f as [|rows]; [done|]. revert Hk. rewrite process_csv_rows.
  destruct (scan_rows ∅ (drop (cursor m path) rows)) as [nc|]; [|done].
  simpl. destruct (decide (nc = ∅)); [done|]. simpl. intros Hk.
  unfold Job.update_rolls, payload. rewrite lookup_fmap.
  destruct (accumulate (cumulative_counts m) nc !! Job.printer_name job) eqn:E;
    [|done].
  exfalso. apply Hp, Hk. eauto.
Qed.

Lemma unstripped_printer_never_updated_witness :
  notify (snd (process_csv init "log.csv"
                 (ReadOk [record "P1 " "Pass (Label)"])))
         MoreSamples.job_blank [Roll.start_roll roll1]
  = Some [Roll.start_roll roll1].
Proof.
  apply (unstripped_printer_never_updated init "log.csv" _ MoreSamples.job_blank).
  - apply reach_init.
  - vm_compute. discriminate.
Defined.

End PipelineMore.

(* ===================================================================== *)
(** ** Which events are handled *)
(* ===================================================================== *)

Module HandlerMore.
Import Monitor Handler.

Lemma endswith_unfold s suffix :
  endswith s suffix
  = if String.eqb s suffix then true
    else match s with
         | EmptyString => false
         | String _ s' => endswith s' suffix
         end.
Proof. by destruct s. Qed.

Lemma endswith_spec s suffix :
  endswith s suffix = true ↔ ∃ stem, s = stem +:+ suffix.
Proof.
  induction s as [|a s IH]; rewrite endswith_unfold.
  - destruct (String.eqb_spec "" suffix) as [<-|Hne].
    { split; [by exists ""|done]. }
    split; [done|]. intros ([|b stem] & H); simpl in H; [done|discriminate].
  - destruct (String.eqb_spec (String a s) suffix) as [<-|Hne].
    { split; [by exists ""|done]. }
    rewrite IH. split.
    + intros (stem & ->). by exists (String a stem).
    + intros ([|b stem] & H); simpl in H; [done|].
      injection H as -> ->. by exists stem.
Qed.

Lemma lower_app s t : lower (s +:+ t) = lower s +:+ lower t.
Proof. induction s as [|a s IH]; simpl; [done|]. by rewrite IH. Qed.

Lemma lower_split s : ∀ x y,
  lower s = x +:+ y → ∃ s1 s2, s = s1 +:+ s2 ∧ lower s1 = x ∧ lower s2 = y.
Proof.
  induction s as [|a s IH]; intros x y H.
  - destruct x; simpl in H; [|discriminate]. by exists "", "".
  - destruct x as [|b x]; simpl in H.
    + by exists "", (String a s).
    + injection H as Hb H. destruct (IH x y H) as (s1 & s2 & -> & <- & <-).
      exists (String a s1), s2. simpl. by rewrite Hb.
Qed.

Lemma lower_char_dot a : lower_char a = "."%char ↔ a = "."%char.
Proof.
  split; [|by intros ->].
  destruct a as [[] [] [] [] [] [] [] []]; vm_compute; congruence.
Qed.

Lemma lower_char_c a : lower_char a = "c"%char ↔ a = "c"%char ∨ a = "C"%char.
Proof.
  split; [|by intros [-> | ->]].
  destruct a as [[] [] [] [] [] [] [] []]; vm_compute; intros; auto; congruence.
Qed.

Lemma lower_char_s a : lower_char a = "s"%char ↔ a = "s"%char ∨ a = "S"%char.
Proof.
  split; [|by intros [-> | ->]].
  destruct a as [[] [] [] [] [] [] [] []]; vm_compute; intros; auto; congruence.
Qed.

Lemma lower_char_v a : lower_char a = "v"%char ↔ a = "v"%char ∨ a = "V"%char.
Proof.
  split; [|by intros [-> | ->]].
  destruct a as [[] [] [] [] [] [] [] []]; vm_compute; intros; auto; congruence.
Qed.

Lemma lower_csv ext :
  lower ext = ".csv"
  ↔ ∃ d a b c, ext = String d (String a (String b (String c "")))
               ∧ d = "."%char
               ∧ (a = "c"%char ∨ a = "C"%char)
               ∧ (b = "s"%char ∨ b = "S"%char)
               ∧ (c = "v"%char ∨ c = "V"%char).
Proof.
  split.
  - destruct ext as [|d [|a [|b [|c [|e ext]]]]]; simpl; try discriminate.
    intros [= Hd Ha Hb Hc]. exists d, a, b, c.
    rewrite <- lower_char_dot, <- lower_char_c, <- lower_char_s, <- lower_char_v.
    done.
  - intros (d & a & b & c & -> & Hd & Ha & Hb & Hc). simpl.
    apply lower_char_dot in Hd. apply lower_char_c in Ha.
    apply lower_char_s in Hb. apply lower_char_v in Hc.
    by rewrite Hd, Ha, Hb, Hc.
Qed.

(** X15.  The handler acts on an event exactly when it is not about a
    directory and the last four characters of the path are a dot followed
    by the letters c, s, v, each in either case.  Every other event
    leaves the monitor as it is; for an event that is acted on,
    [on_modified] is [process_csv] on the path as given and [on_created]
    is the same after the cursor of that path is set to 0. *)
Theorem handled_events event :
  (watched event = true
   ↔ is_directory event = false
     ∧ ∃ stem a b c,
         src_path event
         = stem +:+ String "."%char (String a (String b (String c "")))
         ∧ (a = "c"%char ∨ a = "C"%char)
         ∧ (b = "s"%char ∨ b = "S"%char)
         ∧ (c = "v"%char ∨ c = "V"%char))
  ∧ (watched event = false →
     ∀ m f, on_modified m event f = (m, Quiet) ∧ on_created m event f = (m, Quiet))
  ∧ (watched event = true →
     ∀ m f, on_modified m event f = Monitor.on_modified m (src_path event) f
            ∧ on_created m event f = Monitor.on_created m (src_path event) f).
Proof.
  split; [|split].
  - unfold watched. rewrite andb_true_iff, negb_true_iff, endswith_spec.
    split.
    + intros [Hd (stem' & H)]. split; [done|].
      destruct (lower_split _ _ _ H) as (s1 & s2 & Hs & _ & H2).
      apply lower_csv in H2. destruct H2 as (d & a & b & c & -> & -> & Ha & Hb & Hc).
      by exists s1, a, b, c.
    + intros [Hd (stem & a & b & c & Hs & Ha & Hb & Hc)]. split; [done|].
      exists (lower stem). rewrite Hs, lower_app. f_equal.
      apply lower_csv. by exists "."%char, a, b, c.
  - intros H m f. unfold on_modified, on_created. by rewrite H.
  - intros H m f. unfold on_modified, on_created. by rewrite H.
Qed.

Lemma handled_events_witness :
  watched (mkEvent false "C:/logs/Run 7.CSV") = true
  ∧ watched (mkEvent true "C:/logs/old.csv") = false
  ∧ watched (mkEvent false "C:/logs/run.csv.bak") = false.
Proof.
  destruct (handled_events (mkEvent false "C:/logs/Run 7.CSV")) as ([_ H] & _).
  split; [|split; reflexivity].
  apply H. split; [reflexivity|].
  exists "C:/logs/Run 7", "C"%char, "S"%char, "V"%char. repeat split; auto.
Defined.

End HandlerMore.

Module DialogsMore.
Import Dialogs.

(** X16.  What a form lets through.  [JobFormDialog.accept] refuses a
    form exactly when the customer or the job ticket is empty, and
    otherwise gives the data [EditJobDialog.accept] gives, which refuses
    nothing.  The printer name of the data is never empty: an empty field
    becomes "Printer_1", any other text is kept as typed.  Neither form
    looks at the spin boxes, so 0 labels per roll goes through, and then
    building the rolls of the stored job raises (division by zero), which
    it does for no other value; with labels per roll positive and a
    quantity of 0 the job has no roll at all. *)
Theorem forms_accept f id created_at :
  (JobFormDialog_accept f = None
   ↔ customer_input f = "" ∨ job_ticket_input f = "")
  ∧ (∀ d, JobFormDialog_accept f = Some d → d = EditJobDialog_accept f)
  ∧ printer_name (EditJobDialog_accept f) ≠ ""
  ∧ (printer_name_input f = "" →
     printer_name (EditJobDialog_accept f) = "Printer_1")
  ∧ (printer_name_input f ≠ "" →
     printer_name (EditJobDialog_accept f) = printer_name_input f)
  ∧ (Job.init_ui (stored_job id created_at (EditJobDialog_accept f)) = None
     ↔ labels_per_roll_input f = 0%Z)
  ∧ ((0 < labels_per_roll_input f)%Z → (quantity_input f ≤ 0)%Z →
     Job.init_ui (stored_job id created_at (EditJobDialog_accept f)) = Some []).
Proof.
  split; [|split; [|split; [|split; [|split; [|split]]]]].
  - unfold JobFormDialog_accept. destruct (decide _); [done|]. split; [done|tauto].
  - intros d. unfold JobFormDialog_accept. destruct (decide _); [done|].
    by intros [= <-].
  - simpl. unfold or_default. by destruct (decide _).
  - intros H. simpl. unfold or_default. by rewrite decide_True.
  - intros H. simpl. unfold or_default. by rewrite decide_False.
  - unfold Job.init_ui, Job.total_rolls, Job.ceil_div. simpl.
    destruct (decide (labels_per_roll_input f = 0%Z)); simpl; [done|].
    split; [done|]. by intros ?.
  - intros Hl Hq. unfold Job.init_ui, Job.total_rolls, Job.ceil_div. simpl.
    rewrite decide_False by lia. simpl. f_equal.
    assert (H : (- (- quantity_input f / labels_per_roll_input f) ≤ 0)%Z).
    { pose proof (Z.div_pos (- quantity_input f) (labels_per_roll_input f)).
      lia. }
    unfold seqZ. replace (Z.to_nat _) with 0%nat by lia. done.
Qed.

Lemma forms_accept_witness :
  printer_name (EditJobDialog_accept MoreSamples.empty_spins) = "Printer_1"
  ∧ Job.init_ui (stored_job 9 "2025-03-02T10:00:00"
                   (EditJobDialog_accept MoreSamples.empty_spins)) = None.
Proof.
  destruct (forms_accept MoreSamples.empty_spins 9 "2025-03-02T10:00:00")
    as (_ & _ & _ & H1 & _ & H2 & _).
  split; [apply H1; reflexivity|apply H2; reflexivity].
Defined.

End DialogsMore.

(* ===================================================================== *)
(** ** Properties of the notes panel and of the log of a roll *)
(* ===================================================================== *)

Module NotesMore.
Import Notes RollFacts.

Lemma logged_notes_app l a n :
  logged_notes (l ++ [(a, n)])
  = (logged_notes l ++ if decide (a = "pause note") then [n] else [])%list.
Proof.
  unfold logged_notes. rewrite filter_app, fmap_app. f_equal.
  rewrite filter_cons, filter_nil. simpl. by destruct (decide _).
Qed.

Lemma on_screen_log a n r : Roll.on_screen (Roll.log_roll_action a n r) ↔ Roll.on_screen r.
Proof. done. Qed.

Lemma shape_active s s' acts :
  (s = Roll.running ∨ s = Roll.paused) →
  (s' = Roll.running ∨ s' = Roll.paused) →
  log_shape s acts → log_shape s' acts.
Proof. by intros [-> | ->] [-> | ->]. Qed.

Lemma shape_middle s acts a :
  (s = Roll.running ∨ s = Roll.paused) →
  a = ("resume", "") ∨ fst a = "pause note" →
  log_shape s acts → log_shape s (acts ++ [a]).
Proof.
  intros Hs Ha H.
  assert (G : ∃ middle,
    Forall (fun a => a = ("resume", "") ∨ fst a = "pause note") middle
    ∧ (acts ++ [a] = ("start", "") :: middle ++ [])%list).
  { assert (∃ middle,
      Forall (fun a => a = ("resume", "") ∨ fst a = "pause note") middle
      ∧ (acts = ("start", "") :: middle ++ [])%list) as (middle & Hm & ->)
      by (by destruct Hs as [-> | ->]).
    exists (middle ++ [a])%list. split.
    - apply Forall_app. split; [done|]. by constructor.
    - by rewrite !app_nil_r. }
  by destruct Hs as [-> | ->].
Qed.

Lemma shape_end s acts :
  (s = Roll.running ∨ s = Roll.paused) →
  log_shape s acts →
  log_shape Roll.stopped (acts ++ [("stop", "")])
  ∧ log_shape Roll.completed (acts ++ [("completed", "Roll complete")]).
Proof.
  intros Hs H.
  assert (∃ middle,
    Forall (fun a => a = ("resume", "") ∨ fst a = "pause note") middle
    ∧ (acts = ("start", "") :: middle ++ [])%list) as (middle & Hm & ->)
    by (by destruct Hs as [-> | ->]).
  rewrite app_nil_r. split; by exists middle.
Qed.

Lemma widget_on_screen_init j n g p : on_screen (init j n g p).
Proof.
  split; [apply RollFacts.on_screen_init|]. split; [done|]. by split.
Qed.

Lemma widget_on_screen_step w e w' : on_screen w → step w e = Some w' → on_screen w'.
Proof.
  intros Hinv Hstep. pose proof Hinv as (Hr & Hv & Hh & Hl).
  pose proof Hr as ([Hb1 Hb2] & Hterm & Hbase).
  destruct e as [| |yes|c|text|ts|]; simpl in Hstep.
  - (* Start *)
    injection Hstep as <-. destruct (Roll.start_btn (roll w)) eqn:Eb;
      [|exact Hinv].
    specialize (Hb1 eq_refl).
    assert (Hroll : Roll.on_screen (Roll.start_roll (roll w))).
    { apply (RollFacts.on_screen_step (roll w) Roll.ClickStart); [done|].
      simpl. unfold Roll.click_start. by rewrite Eb. }
    split; [exact Hroll|]. simpl.
    unfold Roll.start_roll. rewrite decide_True by (rewrite Hb1; discriminate).
    simpl. split; [intros H; specialize (Hv H); congruence|].
    split; [by rewrite logged_notes_app, app_nil_r|].
    rewrite Hb1 in Hl. simpl in Hl. rewrite Hl. by exists [].
  - (* Pause *)
    injection Hstep as <-. destruct (Roll.pause_btn (roll w)) eqn:Eb;
      [|exact Hinv].
    assert (Hroll : Roll.on_screen (Roll.toggle_pause (roll w))).
    { apply (RollFacts.on_screen_step (roll w) Roll.ClickPause); [done|].
      simpl. unfold Roll.click_pause. by rewrite Eb. }
    unfold toggle_pause.
    destruct (decide (Roll.state (roll w) = Roll.running)) as [E|E].
    { split; [exact Hroll|]. simpl. unfold Roll.toggle_pause.
      rewrite decide_True by done. simpl. split; [done|]. split; [done|].
      apply (shape_active Roll.running Roll.paused); auto. by rewrite <- E. }
    destruct (decide (Roll.state (roll w) = Roll.paused)) as [E'|E'];
      [|exact Hinv].
    split; [exact Hroll|]. simpl. unfold Roll.toggle_pause.
    rewrite decide_False by done. rewrite decide_True by done. simpl.
    split; [done|]. split; [by rewrite logged_notes_app, app_nil_r|].
    apply (shape_middle Roll.running); auto.
    apply (shape_active Roll.paused Roll.running); auto. by rewrite <- E'.
  - (* Stop *)
    injection Hstep as <-. destruct (Roll.stop_btn (roll w)) eqn:Eb;
      [|exact Hinv].
    destruct yes; [|exact Hinv].
    assert (Hroll : Roll.on_screen (Roll.stop_roll (roll w))).
    { apply (RollFacts.on_screen_step (roll w) (Roll.ClickStop true)); [done|].
      simpl. unfold Roll.confirm_stop. by rewrite Eb. }
    unfold stop_roll.
    destruct (decide (Roll.state (roll w) = Roll.running
                      ∨ Roll.state (roll w) = Roll.paused)) as [E|E];
      [|exact Hinv].
    split; [exact Hroll|]. simpl. unfold Roll.stop_roll.
    rewrite decide_True by done. simpl. split; [done|].
    split; [by rewrite logged_notes_app, app_nil_r|].
    by apply (proj1 (shape_end (Roll.state (roll w)) _ E Hl)).
  - (* Update *)
    unfold update_progress in Hstep.
    destruct (Roll.update_progress (roll w) c) as [r'|] eqn:Eu; simpl in Hstep;
      [|done].
    injection Hstep as <-.
    assert (Hroll : Roll.on_screen r')
      by (by apply (RollFacts.on_screen_step (roll w) (Roll.Update c))).
    split; [exact Hroll|]. simpl.
    unfold Roll.update_progress in Eu.
    destruct (decide (Roll.state (roll w) ≠ Roll.running)) as [E|E].
    { injection Eu as <-. rewrite decide_False by tauto. done. }
    destruct (decide (Roll.state (roll w) = Roll.running)) as [Hrun|Hrun];
      [|by destruct E].
    assert (Hhid : notes_section w = false).
    { destruct (notes_section w); [|done]. specialize (Hv eq_refl).
      rewrite Hrun in Hv. discriminate. }
    destruct (Roll.baseline_pass (roll w)) as [bp|].
    + destruct (Roll.baseline_fail (roll w)) as [bf|]; simpl in Eu; [|done].
      injection Eu as <-.
      destruct (decide _) as [Hc|Hc]; simpl.
      * rewrite decide_True by done.
        split; [done|]. split; [by rewrite logged_notes_app, app_nil_r|].
        apply (proj2 (shape_end (Roll.state (roll w)) _ (or_introl Hrun) Hl)).
      * rewrite Hrun, Hhid. rewrite decide_False by (intros [_ [=]]).
        split; [done|]. split; [done|]. by rewrite <- Hrun.
    + injection Eu as <-. simpl. rewrite Hrun, Hhid.
      rewrite decide_False by (intros [_ [=]]).
      split; [done|]. split; [done|]. by rewrite <- Hrun.
  - (* TypeNote *)
    injection Hstep as <-. destruct (notes_section w) eqn:Ev; [|exact Hinv].
    split; [done|]. split; [done|]. by split.
  - (* Submit *)
    injection Hstep as <-. destruct (notes_section w) eqn:Ev; [|exact Hinv].
    specialize (Hv eq_refl). unfold submit_note.
    destruct (decide _); [|exact Hinv].
    split; [done|]. split; [done|].
    cbn [roll notes_history]. unfold Roll.log_roll_action.
    cbn [Roll.actions Roll.state].
    split; [by rewrite logged_notes_app, decide_True, Hh|].
    rewrite Hv. apply (shape_middle Roll.paused); auto. by rewrite <- Hv.
  - (* Discard *)
    injection Hstep as <-. destruct (notes_section w) eqn:Ev; [|exact Hinv].
    split; [done|]. split; [done|]. by split.
Qed.

Lemma widget_reachable_on_screen w : reachable w → on_screen w.
Proof.
  induction 1 as [j n g p|w e w' _ IH Hstep]; [apply widget_on_screen_init|].
  by apply (widget_on_screen_step w e w').
Qed.

(** X17.  Notes are taken while the roll is paused, and what the screen
    shows is what was logged.  For every widget on screen: the notes panel
    is visible only in state Paused; the notes of [notes_history] are, in
    order, the notes of the "pause note" actions handed to the database;
    and a click on Submit either changes nothing (the text is blank) or,
    the roll being paused, appends one note that holds the time stamp, the
    progress at that moment and the stripped text, logs it, and clears the
    input, leaving state and progress alone. *)
Theorem notes_while_paused w :
  reachable w →
  (notes_section w = true → Roll.state (roll w) = Roll.paused)
  ∧ notes_history w = logged_notes (Roll.actions (roll w))
  ∧ ∀ timestamp w',
      step w (ClickSubmit timestamp) = Some w' →
      (w' = w ∧ (notes_section w = false ∨ PyStr.strip (note_input w) = ""))
      ∨ (Roll.state (roll w) = Roll.paused
         ∧ notes_history w'
           = (notes_history w
              ++ [full_note timestamp (Roll.current_progress (roll w))
                    (PyStr.strip (note_input w))])%list
         ∧ Roll.actions (roll w')
           = (Roll.actions (roll w)
              ++ [("pause note",
                   full_note timestamp (Roll.current_progress (roll w))
                     (PyStr.strip (note_input w)))])%list
         ∧ note_input w' = ""
         ∧ Roll.state (roll w') = Roll.paused
         ∧ Roll.current_progress (roll w') = Roll.current_progress (roll w)).
Proof.
  intros H. destruct (widget_reachable_on_screen w H) as (_ & Hv & Hh & _).
  split; [exact Hv|]. split; [exact Hh|].
  intros ts w' Hstep. simpl in Hstep. injection Hstep as <-.
  destruct (notes_section w) eqn:Ev; [|left; auto].
  unfold submit_note. destruct (decide _) as [Hn|Hn].
  - right. specialize (Hv eq_refl). by repeat split.
  - left. split; [done|]. right.
    by destruct (decide (PyStr.strip (note_input w) = "")); [|destruct Hn].
Qed.

Lemma noted_reachable : reachable MoreSamples.noted.
Proof.
  apply (reach_step
           (mk (Roll.toggle_pause (Roll.start_roll Samples.roll1)) "" [] true)
           (TypeNote "  ribbon changed ")); [|reflexivity].
  apply (reach_step (mk (Roll.start_roll Samples.roll1) "" [] false) ClickPause);
    [|reflexivity].
  apply (reach_step (init 7 1 100 "P1") ClickStart); [|reflexivity].
  apply reach_init.
Qed.

Lemma notes_while_paused_witness :
  Roll.state (roll MoreSamples.noted) = Roll.paused
  ∧ notes_history (submit_note "2025-03-01 08:30:00" MoreSamples.noted)
    = ["[2025-03-01 08:30:00] Paused at 0: ribbon changed"].
Proof.
  destruct (notes_while_paused MoreSamples.noted noted_reachable) as (Hv & _ & Hs).
  split; [apply Hv; reflexivity|].
  destruct (Hs "2025-03-01 08:30:00"
              (submit_note "2025-03-01 08:30:00" MoreSamples.noted) eq_refl)
    as [[_ [H|H]]|(_ & H & _)].
  - discriminate H.
  - vm_compute in H. discriminate H.
  - rewrite H. reflexivity.
Defined.

(** X18.  The log of a roll on screen has one shape: it is empty while
    the roll is idle; otherwise it begins with exactly one "start",
    followed by resumes and pause notes only, and it ends with "stop" for
    a stopped roll and with "completed" for a completed one, and with
    neither for a running or paused roll.  So a roll is never logged as
    started twice, nor as both stopped and completed, and nothing is
    logged after its end. *)
Theorem roll_log_shape w :
  reachable w → log_shape (Roll.state (roll w)) (Roll.actions (roll w)).
Proof. intros H. by destruct (widget_reachable_on_screen w H) as (_ & _ & _ & Hl). Qed.

Lemma roll_log_shape_witness :
  Roll.actions (roll (stop_roll (submit_note "2025-03-01 08:30:00" MoreSamples.noted)))
  = [("start", "");
     ("pause note", "[2025-03-01 08:30:00] Paused at 0: ribbon changed");
     ("stop", "")]
  ∧ log_shape Roll.stopped
      (Roll.actions (roll (stop_roll (submit_note "2025-03-01 08:30:00"
                                        MoreSamples.noted)))).
Proof.
  split; [reflexivity|].
  apply (roll_log_shape (stop_roll (submit_note "2025-03-01 08:30:00" MoreSamples.noted))).
  apply (reach_step (submit_note "2025-03-01 08:30:00" MoreSamples.noted)
           (ClickStop true)); [|reflexivity].
  apply (reach_step MoreSamples.noted (ClickSubmit "2025-03-01 08:30:00"));
    [|reflexivity].
  exact noted_reachable.
Defined.

End NotesMore.

(* ===================================================================== *)
(** ** Properties of the database *)
(* ===================================================================== *)

Module DatabaseMore.
Import Database.

Lemma in_active db j :
  j ∈ get_active_jobs db
  ↔ ∃ r, r ∈ jobs db ∧ completed r = 0%Z ∧ as_job r = j.
Proof.
  unfold get_active_jobs. rewrite list_elem_of_fmap. split.
  - intros (r & -> & Hr). apply list_elem_of_filter in Hr. naive_solver.
  - intros (r & Hr & Hc & <-). exists r. split; [done|].
    by apply list_elem_of_filter.
Qed.

Lemma in_completed db j :
  j ∈ get_completed_jobs db
  ↔ ∃ r, r ∈ jobs db ∧ completed r = 1%Z ∧ as_job r = j.
Proof.
  unfold get_completed_jobs. rewrite list_elem_of_fmap. split.
  - intros (r & -> & Hr). apply list_elem_of_filter in Hr. naive_solver.
  - intros (r & Hr & Hc & <-). exists r. split; [done|].
    by apply list_elem_of_filter.
Qed.

Lemma row_by_id (rows : list JobRow) r1 r2 :
  NoDup (id <$> rows) → r1 ∈ rows → r2 ∈ rows → id r1 = id r2 → r1 = r2.
Proof.
  intros Hnd H1 H2 Hid.
  apply list_elem_of_lookup in H1 as [i Hi]. apply list_elem_of_lookup in H2 as [j Hj].
  assert (i = j).
  { apply (NoDup_lookup (id <$> rows) i j (id r1)); [done| |].
    - by rewrite list_lookup_fmap, Hi.
    - by rewrite list_lookup_fmap, Hj, Hid. }
  subst. congruence.
Qed.

Lemma max_rowid_bound (rows : list JobRow) r : r ∈ rows → (id r ≤ max_rowid rows)%Z.
Proof.
  unfold max_rowid. induction rows as [|x rows IH]; [by intros ?%elem_of_nil|].
  rewrite fmap_cons. cbn [foldr].
  intros [->|H]%elem_of_cons; [lia|]. specialize (IH H). lia.
Qed.

Lemma ids_update_completion db job_id c :
  id <$> jobs (update_job_completion db job_id c) = id <$> jobs db.
Proof.
  simpl. rewrite <- list_fmap_compose. apply list_fmap_ext.
  intros i r _. simpl. by destruct (decide _).
Qed.

Lemma ids_update_job db job_id a b c q l p :
  id <$> jobs (update_job db job_id a b c q l p) = id <$> jobs db.
Proof.
  simpl. rewrite <- list_fmap_compose. apply list_fmap_ext.
  intros i r _. simpl. by destruct (decide _).
Qed.

Lemma well_formed_apply db o : well_formed db → well_formed (apply db o).
Proof.
  intros [Hnd Hfl]. destruct o as [now d|job d|now job|now j n a x]; simpl.
  - split; simpl.
    + rewrite fmap_app. apply NoDup_app. split; [done|]. split; [|apply NoDup_singleton].
      intros i Hi Hn. apply list_elem_of_singleton in Hn. subst i.
      apply list_elem_of_fmap in Hi as (r & Hr & Hin).
      pose proof (max_rowid_bound _ _ Hin) as Hb. unfold max_rowid in *.
      simpl in *. lia.
    + apply Forall_app. split; [done|]. constructor; [by left|constructor].
  - split.
    + unfold edit_job. by rewrite ids_update_job.
    + simpl. apply Forall_fmap. eapply Forall_impl; [exact Hfl|].
      intros r Hr. simpl. by destruct (decide _).
  - split.
    + unfold complete_job. simpl. rewrite <- list_fmap_compose.
      erewrite list_fmap_ext; [exact Hnd|]. intros i r _. simpl. by destruct (decide _).
    + simpl. apply Forall_fmap. eapply Forall_impl; [exact Hfl|].
      intros r Hr. simpl. destruct (decide _); [by right|done].
  - done.
Qed.

Lemma completed_stays db o r :
  r ∈ jobs db → completed r = 1%Z →
  ∃ r', r' ∈ jobs (apply db o) ∧ id r' = id r ∧ completed r' = 1%Z
        ∧ created_at r' = created_at r.
Proof.
  intros Hin Hc. destruct o as [now d|job d|now job|now j n a x]; simpl.
  - exists r. split; [|done]. apply elem_of_app. by left.
  - eexists. split; [by apply list_elem_of_fmap_2|]. simpl.
    by destruct (decide _).
  - eexists. split; [by apply list_elem_of_fmap_2|]. simpl.
    by destruct (decide _).
  - by exists r.
Qed.

(** X19.  Whatever the application does to a database whose keys are
    distinct and whose rows are flagged 0 or 1 (adding, editing and
    completing jobs, logging actions, in any order), the keys stay
    distinct, every job is in exactly one of the lists of
    [get_active_jobs] and [get_completed_jobs], and a job that is
    completed stays completed under its key: nothing returns a job to the
    active list. *)
Theorem database_lifecycle db ops :
  well_formed db →
  well_formed (foldl apply db ops)
  ∧ (∀ r, r ∈ jobs (foldl apply db ops) →
          (as_job r ∈ get_active_jobs (foldl apply db ops)
           ∧ as_job r ∉ get_completed_jobs (foldl apply db ops))
          ∨ (as_job r ∈ get_completed_jobs (foldl apply db ops)
             ∧ as_job r ∉ get_active_jobs (foldl apply db ops)))
  ∧ (∀ j, j ∈ get_completed_jobs db →
          ∃ j', j' ∈ get_completed_jobs (foldl apply db ops)
                ∧ Job.id j' = Job.id j
                ∧ Job.created_at j' = Job.created_at j
                ∧ ∀ k, k ∈ get_active_jobs (foldl apply db ops) →
                       Job.id k ≠ Job.id j).
Proof.
  intros Hwf.
  assert (Hwf' : well_formed (foldl apply db ops)).
  { revert db Hwf. induction ops as [|o ops IH]; intros db Hwf; [done|].
    simpl. apply IH. by apply well_formed_apply. }
  assert (Hstay : ∀ r, r ∈ jobs db → completed r = 1%Z →
            ∃ r', r' ∈ jobs (foldl apply db ops) ∧ id r' = id r
                  ∧ completed r' = 1%Z ∧ created_at r' = created_at r).
  { clear Hwf Hwf'. revert db. induction ops as [|o ops IH]; intros db r Hin Hc.
    - by exists r.
    - simpl. destruct (completed_stays db o r Hin Hc) as (r1 & H1 & Hi1 & Hc1 & Ht1).
      destruct (IH _ r1 H1 Hc1) as (r2 & H2 & Hi2 & Hc2 & Ht2).
      exists r2. split; [done|]. split; [congruence|]. split; [done|congruence]. }
  destruct Hwf' as [Hnd Hfl]. split; [done|]. split.
  - intros r Hr. pose proof (proj1 (Forall_forall _ _) Hfl r Hr) as [Hc|Hc].
    + left. split; [apply in_active; eauto|].
      intros (r' & Hr' & Hc' & He)%in_completed.
      assert (r' = r) by (apply (row_by_id _ _ _ Hnd Hr' Hr); by inversion He).
      subst. lia.
    + right. split; [apply in_completed; eauto|].
      intros (r' & Hr' & Hc' & He)%in_active.
      assert (r' = r) by (apply (row_by_id _ _ _ Hnd Hr' Hr); by inversion He).
      subst. lia.
  - intros j (r & Hr & Hc & <-)%in_completed.
    destruct (Hstay r Hr Hc) as (r' & Hr' & Hi & Hc' & Ht).
    exists (as_job r'). split; [apply in_completed; eauto|].
    split; [done|]. split; [done|].
    intros k (r2 & Hr2 & Hc2 & <-)%in_active Hid. simpl in Hid.
    assert (r2 = r') by (apply (row_by_id _ _ _ Hnd Hr2 Hr'); congruence).
    subst. lia.
Qed.

Lemma database_lifecycle_witness :
  well_formed (foldl apply MoreSamples.db1
                 [OpComplete "2025-03-02T17:00:00" MoreSamples.job1;
                  OpEdit MoreSamples.job1 MoreSamples.edit300])
  ∧ get_active_jobs (foldl apply MoreSamples.db1
                       [OpComplete "2025-03-02T17:00:00" MoreSamples.job1;
                        OpEdit MoreSamples.job1 MoreSamples.edit300]) = [].
Proof.
  destruct (database_lifecycle MoreSamples.db1
              [OpComplete "2025-03-02T17:00:00" MoreSamples.job1;
               OpEdit MoreSamples.job1 MoreSamples.edit300]) as (H & _).
  - split; [|repeat constructor]. simpl. apply NoDup_singleton.
  - split; [exact H|reflexivity].
Defined.

(** X20.  A job added through the form is stored under a key larger than
    every key of the table and than every key ever given out; it appears
    last in [get_active_jobs], as the tuple of what was typed with that
    key and the time of the call, and nothing else changes: the active
    jobs before it, the completed jobs and the action log are as they
    were. *)
Theorem new_job_is_active db now d :
  (∀ r, r ∈ jobs db → (id r < snd (open_job_form db now d))%Z)
  ∧ (jobs_seq db < snd (open_job_form db now d))%Z
  ∧ get_active_jobs (fst (open_job_form db now d))
    = (get_active_jobs db
       ++ [Dialogs.stored_job (snd (open_job_form db now d)) now d])%list
  ∧ get_completed_jobs (fst (open_job_form db now d)) = get_completed_jobs db
  ∧ roll_tracking (fst (open_job_form db now d)) = roll_tracking db.
Proof.
  split; [|split; [|split; [|split]]].
  - intros r Hr. pose proof (max_rowid_bound _ _ Hr). simpl. lia.
  - simpl. lia.
  - unfold get_active_jobs. simpl. rewrite filter_app, fmap_app. f_equal.
  - unfold get_completed_jobs. simpl. rewrite filter_app, fmap_app.
    rewrite filter_cons, filter_nil. simpl. by rewrite app_nil_r.
  - done.
Qed.

Lemma active_row db job :
  well_formed db → job ∈ get_active_jobs db →
  ∃ r0, r0 ∈ jobs db ∧ completed r0 = 0%Z ∧ as_job r0 = job
        ∧ ∀ r, r ∈ jobs db → id r = Job.id job → r = r0.
Proof.
  intros [Hnd _] (r0 & Hr0 & Hc0 & <-)%in_active. exists r0.
  repeat split; try done. intros r Hr Hid. by apply (row_by_id _ _ _ Hnd Hr Hr0).
Qed.

(** X21.  Completing a job that is in the active list (the keys being
    distinct) moves that job and no other: the active list loses exactly
    it, the completed list gains exactly it, with its fields unchanged,
    and one "job completed" action with roll number 0 is added to the
    log. *)
Theorem complete_job_moves_one_job db now job :
  well_formed db →
  job ∈ get_active_jobs db →
  (∀ j, j ∈ get_active_jobs (complete_job db now job)
        ↔ j ∈ get_active_jobs db ∧ j ≠ job)
  ∧ (∀ j, j ∈ get_completed_jobs (complete_job db now job)
          ↔ j ∈ get_completed_jobs db ∨ j = job)
  ∧ roll_tracking (complete_job db now job)
    = (roll_tracking db
       ++ [mkTrack (Job.id job) 0 "job completed" "Job marked as complete" now])%list.
Proof.
  intros Hwf Hj. destruct (active_row db job Hwf Hj) as (r0 & Hr0 & Hc0 & He0 & Huniq).
  split; [|split; [|done]].
  - intros j. rewrite !in_active. simpl. split.
    + intros (r' & Hr' & Hc' & <-).
      apply list_elem_of_fmap in Hr' as (r & -> & Hr).
      destruct (decide (id r = Job.id job)) as [E|E]; simpl in *; [lia|].
      split; [by exists r|]. intros Heq. apply E. by rewrite <- Heq.
    + intros [(r & Hr & Hc & <-) Hne].
      eexists. split; [by apply (list_elem_of_fmap_2 _ _ r)|]. simpl.
      destruct (decide (id r = Job.id job)) as [E|E]; [|done].
      destruct Hne. rewrite (Huniq r Hr E). done.
  - intros j. rewrite !in_completed. simpl. split.
    + intros (r' & Hr' & Hc' & <-).
      apply list_elem_of_fmap in Hr' as (r & -> & Hr).
      destruct (decide (id r = Job.id job)) as [E|E]; simpl in *.
      * right. rewrite (Huniq r Hr E). done.
      * left. by exists r.
    + intros [(r & Hr & Hc & <-)| ->].
      * eexists. split; [by apply (list_elem_of_fmap_2 _ _ r)|]. simpl.
        by destruct (decide (id r = Job.id job)).
      * eexists. split; [by apply (list_elem_of_fmap_2 _ _ r0)|]. simpl.
        rewrite decide_True by (by rewrite <- He0). done.
Qed.

Lemma db1_well_formed : well_formed MoreSamples.db1.
Proof. split; [|repeat constructor]. simpl. apply NoDup_singleton. Qed.

Lemma complete_job_moves_one_job_witness :
  get_active_jobs (complete_job MoreSamples.db1 "2025-03-02T17:00:00" MoreSamples.job1)
  = []
  ∧ MoreSamples.job1
    ∈ get_completed_jobs
        (complete_job MoreSamples.db1 "2025-03-02T17:00:00" MoreSamples.job1).
Proof.
  destruct (complete_job_moves_one_job MoreSamples.db1 "2025-03-02T17:00:00"
              MoreSamples.job1 db1_well_formed) as (_ & H & _).
  - vm_compute. apply list_elem_of_here.
  - split; [reflexivity|]. apply H. by right.
Defined.

Lemma completed_unchanged (rows : list JobRow) f :
  (∀ r, r ∈ rows → as_job (f r) = as_job r ∨ (completed r = 0%Z ∧ completed (f r) = 0%Z)) →
  (∀ r, r ∈ rows → completed (f r) = completed r) →
  as_job <$> filter (fun r => completed r = 1%Z) (f <$> rows)
  = as_job <$> filter (fun r => completed r = 1%Z) rows.
Proof.
  induction rows as [|x rows IH]; intros H1 H2; [done|].
  rewrite fmap_cons, !filter_cons, (H2 x) by apply list_elem_of_here.
  assert (IH' : as_job <$> filter (fun r => completed r = 1%Z) (f <$> rows)
                = as_job <$> filter (fun r => completed r = 1%Z) rows).
  { apply IH; intros r Hr; [apply H1|apply H2]; by apply list_elem_of_further. }
  destruct (decide (completed x = 1%Z)) as [Hc|Hc]; [|done].
  rewrite !fmap_cons, IH'. f_equal.
  destruct (H1 x) as [H|[H _]]; [apply list_elem_of_here|done|lia].
Qed.

(** X22.  Editing a job that is in the active list (the keys being
    distinct) changes that job and no other, and only the six fields of
    the form: it stays in the active list under the same key and with its
    creation time, the other active jobs, the completed jobs and the
    action log are as they were. *)
Theorem edit_job_keeps_key_and_list db job d :
  well_formed db →
  job ∈ get_active_jobs db →
  (∀ j, j ∈ get_active_jobs (edit_job db job d)
        ↔ (j ∈ get_active_jobs db ∧ j ≠ job)
          ∨ j = Dialogs.stored_job (Job.id job) (Job.created_at job) d)
  ∧ get_completed_jobs (edit_job db job d) = get_completed_jobs db
  ∧ roll_tracking (edit_job db job d) = roll_tracking db.
Proof.
  intros Hwf Hj. destruct (active_row db job Hwf Hj) as (r0 & Hr0 & Hc0 & He0 & Huniq).
  split; [|split; [|done]].
  - intros j. rewrite !in_active. simpl. split.
    + intros (r' & Hr' & Hc' & <-).
      apply list_elem_of_fmap in Hr' as (r & -> & Hr).
      destruct (decide (id r = Job.id job)) as [E|E]; simpl in *.
      * right. rewrite (Huniq r Hr E), <- He0. done.
      * left. split; [by exists r|]. intros Heq. apply E. by rewrite <- Heq.
    + intros [[(r & Hr & Hc & <-) Hne]| ->].
      * eexists. split; [by apply (list_elem_of_fmap_2 _ _ r)|]. simpl.
        destruct (decide (id r = Job.id job)) as [E|E]; [|done].
        destruct Hne. by rewrite (Huniq r Hr E).
      * eexists. split; [by apply (list_elem_of_fmap_2 _ _ r0)|]. simpl.
        rewrite decide_True by (by rewrite <- He0). simpl.
        split; [done|]. by rewrite <- He0.
  - unfold get_completed_jobs, edit_job, update_job. simpl.
    apply completed_unchanged.
    + intros r Hr. destruct (decide (id r = Job.id job)) as [E|E]; [|by left].
      right. rewrite (Huniq r Hr E). done.
    + intros r Hr. by destruct (decide _).
Qed.

Lemma edit_job_keeps_key_and_list_witness :
  Dialogs.stored_job 1 "2025-03-01T08:00:00" MoreSamples.edit300
  ∈ get_active_jobs (edit_job MoreSamples.db1 MoreSamples.job1 MoreSamples.edit300)
  ∧ get_completed_jobs (edit_job MoreSamples.db1 MoreSamples.job1 MoreSamples.edit300)
    = [].
Proof.
  destruct (edit_job_keeps_key_and_list MoreSamples.db1 MoreSamples.job1
              MoreSamples.edit300 db1_well_formed) as (H & Hc & _).
  - vm_compute. apply list_elem_of_here.
  - split; [apply H; by right|]. rewrite Hc. reflexivity.
Defined.

End DatabaseMore.
